(** * AlertmanagerConfigEditor: the debounced validation pipeline and the view

    A shallow embedding of
    [packages/app/src/client/views/cluster/AlertmanagerConfigEditor.tsx].

    The component is single threaded: every piece of code below runs as one
    task of the browser's event loop.  The embedding therefore threads one
    [World] through the code: the React cells of the component ([configRef],
    the [useState] slot written by [setConfigValid]), the closures allocated
    by lodash's [debounce], the pending [setTimeout] timers, the queue of
    promise reactions and a trace of the calls made to the collaborators. *)

From Stdlib Require Import ZArith Ascii String List Bool Lia.
From stdpp Require Import base list strings.
Import ListNotations.

Local Open Scope string_scope.
Local Open Scope list_scope.
Local Open Scope Z_scope.

(** ** JavaScript values the component reads *)

(** [s] used as a condition: the empty string is falsy. *)
Definition truthy (s : string) : bool := negb (String.eqb s "").

(** [x || ""] for an optional string [x]. *)
Definition or_empty (x : option string) : string :=
  match x with
  | Some s => if truthy s then s else ""
  | None => ""
  end.

(** [type validationCheckOptions = { useModelMarkers: boolean }] *)
Record validationCheckOptions := { useModelMarkers : bool }.

(** [AlertmanagerUpdateResponse], with the two fields the view reads. *)
Record AlertmanagerUpdateResponse := {
  success : bool;
  error_raw_response : option string
}.

(** [type FormData = { remoteValidation: AlertmanagerUpdateResponse }] *)
Record FormData := { remoteValidation : AlertmanagerUpdateResponse }.

Definition defaultData : FormData :=
  {| remoteValidation := {| success := true; error_raw_response := None |} |}.

(** [Form<FormData>], with the fields the view reads. *)
Record Form := { status : string; data : FormData }.

Record Tenant := { name : string }.

Record Alertmanager := { header : option string; config : option string }.

(** The argument of the [updateAlertmanager] action creator. *)
Record UpdateAlertmanager := {
  upd_tenantId : string;
  upd_header : string;
  upd_config : string;
  upd_formId : string
}.

(** What the hooks at the top of the component returned for this render. *)
Record Hooks := {
  tenant : option Tenant;             (* useTenant(tenantId) *)
  formId : string;                    (* useForm(...) *)
  formState : Form;                   (* useFormState(formId, defaultData) *)
  alertmanager : option Alertmanager  (* useAlertmanager(tenantId) *)
}.

(** ** The world *)

(** Which of the two debounced wrappers of [handleConfigChange] a closure
    was created for.  The tag is ghost state: lodash does not read it. *)
Inductive Origin := ChangeStart | ChangePause.

Definition Origin_eqb (a b : Origin) : bool :=
  match a, b with
  | ChangeStart, ChangeStart | ChangePause, ChangePause => true
  | _, _ => false
  end.

(** The [arguments] of a call of a debounced wrapper of [validationCheck]. *)
Definition Args : Type := string * option validationCheckOptions.

(** The variables closed over by one result of lodash's [debounce]. *)
Record Debounced := {
  origin : Origin;
  wait : Z;
  leading : bool;
  maxing : bool;
  maxWait : Z;
  trailing : bool;
  lastArgs : option Args;
  timerId : option nat;
  lastCallTime : option Z;
  lastInvokeTime : Z
}.

(** A pending [setTimeout(timerExpired, delay)] of the closure at [target]. *)
Record Timer := { tid : nat; due : Z; target : nat }.

(** A promise reaction waiting in the microtask queue.  The only reactions
    of this component are the [then]/[catch] callbacks of [validate], and
    both only call [setConfigValid]. *)
Inductive Microtask := ReactSetConfigValid (b : bool).

Inductive Exn := YAMLException (reason : string) | OtherError (reason : string).

Inductive Event :=
| EvInvoke (o : Origin) (time : Z) (filename : string)
| EvGetModelMarkers (filename : string)
| EvLoad (text : string)
| EvValidate
| EvSetConfigValid (b : bool)
| EvUncaught (e : Exn).

Record World := {
  now : Z;                            (* Date.now(), in milliseconds *)
  configRef : string;                 (* configRef.current *)
  configValid : option bool;          (* the slot of useState<boolean | null> *)
  heap : list Debounced;              (* closures made by debounce, by address *)
  timers : list Timer;                (* pending timeouts, in creation order *)
  nextTimerId : nat;
  microtasks : list Microtask;
  trace : list Event;                 (* newest first *)
  hooks : Hooks;
  dispatched : list UpdateAlertmanager  (* newest first *)
}.

Definition set_now (t : Z) (w : World) : World :=
  {| now := t; configRef := configRef w; configValid := configValid w;
     heap := heap w; timers := timers w; nextTimerId := nextTimerId w;
     microtasks := microtasks w; trace := trace w; hooks := hooks w;
     dispatched := dispatched w |}.

Definition set_configRef (s : string) (w : World) : World :=
  {| now := now w; configRef := s; configValid := configValid w;
     heap := heap w; timers := timers w; nextTimerId := nextTimerId w;
     microtasks := microtasks w; trace := trace w; hooks := hooks w;
     dispatched := dispatched w |}.

Definition set_configValid (v : option bool) (w : World) : World :=
  {| now := now w; configRef := configRef w; configValid := v;
     heap := heap w; timers := timers w; nextTimerId := nextTimerId w;
     microtasks := microtasks w; trace := trace w; hooks := hooks w;
     dispatched := dispatched w |}.

Definition set_heap (h : list Debounced) (w : World) : World :=
  {| now := now w; configRef := configRef w; configValid := configValid w;
     heap := h; timers := timers w; nextTimerId := nextTimerId w;
     microtasks := microtasks w; trace := trace w; hooks := hooks w;
     dispatched := dispatched w |}.

Definition set_timers (ts : list Timer) (n : nat) (w : World) : World :=
  {| now := now w; configRef := configRef w; configValid := configValid w;
     heap := heap w; timers := ts; nextTimerId := n;
     microtasks := microtasks w; trace := trace w; hooks := hooks w;
     dispatched := dispatched w |}.

Definition set_microtasks (ms : list Microtask) (w : World) : World :=
  {| now := now w; configRef := configRef w; configValid := configValid w;
     heap := heap w; timers := timers w; nextTimerId := nextTimerId w;
     microtasks := ms; trace := trace w; hooks := hooks w;
     dispatched := dispatched w |}.

Definition set_trace (tr : list Event) (w : World) : World :=
  {| now := now w; configRef := configRef w; configValid := configValid w;
     heap := heap w; timers := timers w; nextTimerId := nextTimerId w;
     microtasks := microtasks w; trace := tr; hooks := hooks w;
     dispatched := dispatched w |}.

Definition set_dispatched (ds : list UpdateAlertmanager) (w : World) : World :=
  {| now := now w; configRef := configRef w; configValid := configValid w;
     heap := heap w; timers := timers w; nextTimerId := nextTimerId w;
     microtasks := microtasks w; trace := trace w; hooks := hooks w;
     dispatched := ds |}.

(** The world in which the component has just been mounted.
    [useRef<string>(alertmanager?.config || "")], [useState(null)]. *)
Definition mount (t0 : Z) (h : Hooks) : World :=
  {| now := t0;
     configRef := or_empty (match alertmanager h with
                            | Some a => config a
                            | None => None
                            end);
     configValid := None;
     heap := []; timers := []; nextTimerId := 0%nat;
     microtasks := []; trace := []; hooks := h; dispatched := [] |}.

(** ** Code that may throw *)

(** A piece of JavaScript run in a world either completes with a value or
    throws; the mutations made before a throw stay. *)
Inductive Outcome (A : Type) :=
| Return (a : A) (w : World)
| Throw (e : Exn) (w : World).
Arguments Return {A} a w.
Arguments Throw {A} e w.

Definition M (A : Type) : Type := World -> Outcome A.

Definition ret {A} (a : A) : M A := fun w => Return a w.

Definition bind {A B} (m : M A) (k : A -> M B) : M B :=
  fun w => match m w with
           | Return a w' => k a w'
           | Throw e w' => Throw e w'
           end.

Definition throw {A} (e : Exn) : M A := fun w => Throw e w.

(** [try { body } catch (e) { handler(e) }] *)
Definition try_catch {A} (body : M A) (handler : Exn -> M A) : M A :=
  fun w => match body w with
           | Return a w' => Return a w'
           | Throw e w' => handler e w'
           end.

Definition gets {A} (f : World -> A) : M A := fun w => Return (f w) w.

Definition modify (f : World -> World) : M unit := fun w => Return tt (f w).

Declare Scope js_scope.
Delimit Scope js_scope with js.
Notation "x <- m ;; k" := (bind m (fun x => k))
  (at level 100, m at next level, k at level 200, right associativity) : js_scope.
Notation "m ;; k" := (bind m (fun _ => k))
  (at level 100, k at level 200, right associativity) : js_scope.

Definition world_of {A} (r : Outcome A) : World :=
  match r with
  | Return _ w => w
  | Throw _ w => w
  end.

Definition log (e : Event) : M unit := modify (fun w => set_trace (e :: trace w) w).

(** The setter of [useState]: the first component of the pair, the value,
    is dropped by the component ([const [, setConfigValid] = ...]). *)
Definition setConfigValid (b : bool) : M unit :=
  (log (EvSetConfigValid b) ;; modify (set_configValid (Some b)))%js.

(** ** Counting calls in the trace *)

Definition is_load (e : Event) : bool :=
  match e with EvLoad _ => true | _ => false end.
Definition is_validate (e : Event) : bool :=
  match e with EvValidate => true | _ => false end.
Definition is_getModelMarkers (e : Event) : bool :=
  match e with EvGetModelMarkers _ => true | _ => false end.
Definition is_invoke (o : Origin) (e : Event) : bool :=
  match e with EvInvoke o' _ _ => Origin_eqb o o' | _ => false end.

Definition count (p : Event -> bool) (tr : list Event) : nat :=
  List.length (List.filter p tr).

Definition parse_calls (w : World) : nat := count is_load (trace w).
Definition validate_calls (w : World) : nat := count is_validate (trace w).
Definition marker_queries (w : World) : nat := count is_getModelMarkers (trace w).
Definition invocations (o : Origin) (w : World) : nat := count (is_invoke o) (trace w).

(** ** Closures of lodash's [debounce]

    [debounce] comes from lodash, a dependency of the package.  The
    definitions of this part and of the next follow [debounce.js] of lodash
    4.17 function by function; the variables its inner functions share
    ([lastArgs], [timerId], [lastCallTime], [lastInvokeTime]) live in a
    [Debounced] record on the heap, because [debounced] and [timerExpired]
    of one wrapper both assign them.  [lastThis] and [result] are left out:
    [validationCheck] reads no [this] and returns nothing. *)

Definition set_lastArgs (a : option Args) (s : Debounced) : Debounced :=
  {| origin := origin s; wait := wait s; leading := leading s;
     maxing := maxing s; maxWait := maxWait s; trailing := trailing s;
     lastArgs := a; timerId := timerId s;
     lastCallTime := lastCallTime s; lastInvokeTime := lastInvokeTime s |}.

Definition set_timerId (i : option nat) (s : Debounced) : Debounced :=
  {| origin := origin s; wait := wait s; leading := leading s;
     maxing := maxing s; maxWait := maxWait s; trailing := trailing s;
     lastArgs := lastArgs s; timerId := i;
     lastCallTime := lastCallTime s; lastInvokeTime := lastInvokeTime s |}.

Definition set_lastCallTime (t : option Z) (s : Debounced) : Debounced :=
  {| origin := origin s; wait := wait s; leading := leading s;
     maxing := maxing s; maxWait := maxWait s; trailing := trailing s;
     lastArgs := lastArgs s; timerId := timerId s;
     lastCallTime := t; lastInvokeTime := lastInvokeTime s |}.

Definition set_lastInvokeTime (t : Z) (s : Debounced) : Debounced :=
  {| origin := origin s; wait := wait s; leading := leading s;
     maxing := maxing s; maxWait := maxWait s; trailing := trailing s;
     lastArgs := lastArgs s; timerId := timerId s;
     lastCallTime := lastCallTime s; lastInvokeTime := t |}.

(** Runs [k] on the current variables of the closure at address [d].
    Addresses only come from [debounce], which allocates them, so the
    other branch is never taken; it does nothing. *)
Definition with_closure (d : nat) (k : Debounced -> M unit) : M unit :=
  fun w => match heap w !! d with
           | Some s => k s w
           | None => Return tt w
           end.

(** Assigns variables of the closure at [d]. *)
Definition update (d : nat) (f : Debounced -> Debounced) : M unit :=
  with_closure d (fun s => modify (fun w => set_heap (<[d := f s]> (heap w)) w)).

(** [setTimeout(timerExpired, delay)] from inside the closure at [d]. *)
Definition setTimeout (d : nat) (delay : Z) : M nat :=
  fun w =>
    let id := nextTimerId w in
    Return id
      (set_timers
         (timers w ++ [{| tid := id; due := now w + Z.max 0 delay; target := d |}])
         (S id) w).

Definition clearTimeout (id : nat) : M unit :=
  modify (fun w =>
    set_timers (List.filter (fun tm => negb (Nat.eqb (tid tm) id)) (timers w))
               (nextTimerId w) w).

(** The [options] object of [debounce]; [None] is an absent key. *)
Record DebounceOptions := {
  opt_leading : option bool;
  opt_maxWait : option Z;
  opt_trailing : option bool
}.

(** [function shouldInvoke(time)] *)
Definition shouldInvoke (s : Debounced) (time : Z) : bool :=
  match lastCallTime s with
  | None => true
  | Some lct =>
      let timeSinceLastCall := time - lct in
      let timeSinceLastInvoke := time - lastInvokeTime s in
      (wait s <=? timeSinceLastCall) || (timeSinceLastCall <? 0)
      || (maxing s && (maxWait s <=? timeSinceLastInvoke))
  end.

(** [function remainingWait(time)].  It is only called after [shouldInvoke]
    answered false, hence with [lastCallTime] defined. *)
Definition remainingWait (s : Debounced) (time : Z) : Z :=
  match lastCallTime s with
  | None => 0
  | Some lct =>
      let timeSinceLastCall := time - lct in
      let timeSinceLastInvoke := time - lastInvokeTime s in
      let timeWaiting := wait s - timeSinceLastCall in
      if maxing s then Z.min timeWaiting (maxWait s - timeSinceLastInvoke)
      else timeWaiting
  end.

Definition is_some {A} (o : option A) : bool :=
  match o with Some _ => true | None => false end.

Section Pipeline.

(** The collaborators the pipeline is wired to. *)
Context {ParsedData Marker : Type}.

(** [yamlParser.load(text, { schema: yamlParser.JSON_SCHEMA })]: the parsed
    data, or the exception it throws. *)
Variable yamlParser_load : string -> Exn + ParsedData.

(** [alertmanagerConfigSchema.validate(data, { strict: true })]: [true] when
    the promise is fulfilled, [false] when it is rejected. *)
Variable schema_validate : ParsedData -> bool.

(** [editor.getModelMarkers({ resource: monaco.Uri.parse(filename) })], asked
    at a given time: the markers the editor holds then (it sets them on its
    own schedule), or the exception the expression throws ([Uri.parse]
    rejects a malformed file name). *)
Variable getModelMarkers : Z -> string -> Exn + list Marker.

Local Open Scope js_scope.

(** The marker query of [validationCheck].  It stands before the [try]: its
    exception leaves the attempt.  [EvGetModelMarkers] records a query that
    was answered. *)
Definition query_markers (filename : string) : M (list Marker) :=
  time <- gets now ;;
  match getModelMarkers time filename with
  | inl e => throw e
  | inr markers => log (EvGetModelMarkers filename) ;; ret markers
  end.

Definition load (text : string) : M ParsedData :=
  log (EvLoad text) ;;
  match yamlParser_load text with
  | inl e => throw e
  | inr parsed => ret parsed
  end.

Definition validate (parsed : ParsedData) : M bool :=
  log EvValidate ;; ret (schema_validate parsed).

(** Registers the [then]/[catch] reactions of a promise that settles
    without waiting for a later task. *)
Definition enqueue (m : Microtask) : M unit :=
  modify (fun w => set_microtasks (microtasks w ++ [m]) w).

(** [options?.useModelMarkers] *)
Definition wants_markers (options : option validationCheckOptions) : bool :=
  match options with
  | Some o => useModelMarkers o
  | None => false
  end.

(** [const validationCheck = (filename, options) => { ... }] *)
Definition validationCheck (filename : string)
    (options : option validationCheckOptions) : M unit :=
  markers <- (if wants_markers options then query_markers filename
              else ret []) ;;
  if Nat.eqb (List.length markers) 0 then
    try_catch
      (text <- gets configRef ;;
       parsedData <- load text ;;
       fulfilled <- validate parsedData ;;
       enqueue (ReactSetConfigValid fulfilled))
      (fun _ => setConfigValid false)
  else
    setConfigValid false.

(** *** lodash [debounce(func, wait, options)], with [func = validationCheck] *)

(** [func.apply(thisArg, args)].  Without arguments [validationCheck] gets
    [undefined] twice; it then never reads [filename]. *)
Definition func_apply (o : Origin) (time : Z) (args : option Args) : M unit :=
  match args with
  | Some (filename, options) =>
      log (EvInvoke o time filename) ;; validationCheck filename options
  | None =>
      log (EvInvoke o time "") ;; validationCheck "" None
  end.

(** [function invokeFunc(time)] *)
Definition invokeFunc (d : nat) (time : Z) : M unit :=
  with_closure d (fun s =>
    let args := lastArgs s in
    update d (fun s => set_lastInvokeTime time (set_lastArgs None s)) ;;
    func_apply (origin s) time args).

(** [function leadingEdge(time)] *)
Definition leadingEdge (d : nat) (time : Z) : M unit :=
  update d (set_lastInvokeTime time) ;;
  with_closure d (fun s =>
    id <- setTimeout d (wait s) ;;
    update d (set_timerId (Some id)) ;;
    if leading s then invokeFunc d time else ret tt).

(** [function trailingEdge(time)] *)
Definition trailingEdge (d : nat) (time : Z) : M unit :=
  update d (set_timerId None) ;;
  with_closure d (fun s =>
    if trailing s && is_some (lastArgs s) then invokeFunc d time
    else update d (set_lastArgs None)).

(** [function timerExpired()] *)
Definition timerExpired (d : nat) : M unit :=
  time <- gets now ;;
  with_closure d (fun s =>
    if shouldInvoke s time then trailingEdge d time
    else
      id <- setTimeout d (remainingWait s time) ;;
      update d (set_timerId (Some id))).

(** [function debounced()] *)
Definition debounced (d : nat) (args : Args) : M unit :=
  time <- gets now ;;
  with_closure d (fun s0 =>
    let isInvoking := shouldInvoke s0 time in
    update d (fun s => set_lastCallTime (Some time) (set_lastArgs (Some args) s)) ;;
    with_closure d (fun s =>
      match timerId s with
      | None =>
          if isInvoking then leadingEdge d time
          else
            id <- setTimeout d (wait s) ;;
            update d (set_timerId (Some id))
      | Some running =>
          if isInvoking && maxing s then
            clearTimeout running ;;
            id <- setTimeout d (wait s) ;;
            update d (set_timerId (Some id)) ;;
            invokeFunc d time
          else ret tt
      end)).

(** [debounce(validationCheck, wait, options)]: allocates the closure and
    returns its address. *)
Definition debounce (o : Origin) (wait_ : Z) (options : option DebounceOptions)
    : M nat :=
  fun w =>
    let leading_ := match options with
                    | Some op => match opt_leading op with
                                 | Some b => b
                                 | None => false
                                 end
                    | None => false
                    end in
    let maxWait_ := match options with
                    | Some op => opt_maxWait op
                    | None => None
                    end in
    let trailing_ := match options with
                     | Some op => match opt_trailing op with
                                  | Some b => b
                                  | None => true
                                  end
                     | None => true
                     end in
    let s := {| origin := o; wait := wait_; leading := leading_;
                maxing := is_some maxWait_;
                maxWait := match maxWait_ with
                           | Some m => Z.max m wait_
                           | None => 0
                           end;
                trailing := trailing_;
                lastArgs := None; timerId := None;
                lastCallTime := None; lastInvokeTime := 0 |} in
    Return (List.length (heap w)) (set_heap (heap w ++ [s]) w).

(** [const handleConfigChange = useCallback((newConfig, filename) => {...}, [])] *)
Definition handleConfigChange (newConfig filename : string) : M unit :=
  validationCheckOnChangeStart <-
    debounce ChangeStart 300
      (Some {| opt_leading := Some true; opt_maxWait := None;
               opt_trailing := Some false |}) ;;
  checkValidationOnChangePause <-
    debounce ChangePause 500
      (Some {| opt_leading := None; opt_maxWait := Some 5000;
               opt_trailing := None |}) ;;
  modify (set_configRef newConfig) ;;
  debounced validationCheckOnChangeStart (filename, None) ;;
  debounced checkValidationOnChangePause (filename, None).

(** *** The event loop *)

Fixpoint drain (ms : list Microtask) : M unit :=
  match ms with
  | [] => ret tt
  | ReactSetConfigValid b :: ms' => setConfigValid b ;; drain ms'
  end.

(** Runs the queued promise reactions, oldest first. *)
Definition run_microtasks : M unit :=
  fun w => drain (microtasks w) (set_microtasks [] w).

(** One task: the callback, then the microtasks it left.  An exception
    that escapes the callback is reported and the loop goes on. *)
Definition task (callback : M unit) (w : World) : World :=
  let w1 := match callback w with
            | Return _ w' => w'
            | Throw e w' => set_trace (EvUncaught e :: trace w') w'
            end in
  world_of (run_microtasks w1).

(** The pending timer that fires next: the least [due], the oldest first. *)
Fixpoint earliest (ts : list Timer) : option Timer :=
  match ts with
  | [] => None
  | tm :: ts' =>
      match earliest ts' with
      | None => Some tm
      | Some tm' => if due tm <=? due tm' then Some tm else Some tm'
      end
  end.

Definition remove_timer (id : nat) (w : World) : World :=
  set_timers (List.filter (fun tm => negb (Nat.eqb (tid tm) id)) (timers w))
             (nextTimerId w) w.

(** What the event loop can run next: the editor's [onChange] at time [t],
    or the next pending timer. *)
Inductive Label :=
| Edit (t : Z) (newConfig filename : string)
| Tick.

(** An edit at [t] is possible when the clock has not passed [t] and no
    timer is due before [t]; a timer fires at its due time. *)
Definition step (l : Label) (w : World) : option World :=
  match l with
  | Edit t newConfig filename =>
      if (now w <=? t)
         && match earliest (timers w) with
            | Some tm => t <=? due tm
            | None => true
            end
      then Some (task (handleConfigChange newConfig filename) (set_now t w))
      else None
  | Tick =>
      match earliest (timers w) with
      | Some tm =>
          Some (task (timerExpired (target tm))
                     (remove_timer (tid tm) (set_now (Z.max (now w) (due tm)) w)))
      | None => None
      end
  end.

Fixpoint exec (ls : list Label) (w : World) : option World :=
  match ls with
  | [] => Some w
  | l :: ls' =>
      match step l w with
      | Some w' => exec ls' w'
      | None => None
      end
  end.

End Pipeline.

(** ** The view *)

(** [const handleSave = useCallback(() => {...}, [tenant?.name, ...])].  The
    dependency list names everything the body reads from the hooks, so the
    callback always sees the values of the current render. *)
Definition handleSave : M unit :=
  fun w =>
    match tenant (hooks w) with
    | Some t =>
        if truthy (name t) then
          Return tt
            (set_dispatched
               ({| upd_tenantId := name t;
                   upd_header := or_empty (match alertmanager (hooks w) with
                                           | Some a => header a
                                           | None => None
                                           end);
                   upd_config := configRef w;
                   upd_formId := formId (hooks w) |} :: dispatched w) w)
        else Return tt w
    | None => Return tt w
    end.

(** The components the view is built from, with the props that matter.  The
    [Button]'s [onClick] is always [handleSave] and the [YamlEditor]'s
    [onChange] is always [handleConfigChange]. *)
Inductive Tag :=
| Layout
| Skeleton
| Box
| Card
| CardHeader (variant title : string)
| CardContent
| YamlEditor (filename data : string)
| Button (disabled : bool).

#[local] Set Warnings "-register-all".

Inductive Element :=
| El (tag : Tag) (children : list Element)
| Text (s : string).

(** Modelled from the spec: [CondRender] of [client/utils/rendering], which
    is not part of the sources at hand.  The error panel is "rendered ... only
    when success is false", and the panel passes [unless={response.success}]:
    the children are rendered unless the flag holds. *)
Definition CondRender (unless : bool) (children : list Element) : list Element :=
  if unless then [] else children.

(** [{value}] as a child: [undefined] renders nothing. *)
Definition optional_text (x : option string) : list Element :=
  match x with
  | Some s => [Text s]
  | None => []
  end.

(** [const ErrorPanel = ({ response }) => ...] *)
Definition ErrorPanel (response : AlertmanagerUpdateResponse) : list Element :=
  CondRender (success response)
    [ El (CardHeader "h6" "Error: Service side validation failed") [];
      El CardContent (optional_text (error_raw_response response)) ].

(** What the component returns for the current world.  The value of the
    [useState] slot is not bound by the component, so nothing here can
    read [configValid]. *)
Definition AlertmanagerConfigEditor (w : World) : Element :=
  let h := hooks w in
  match tenant h with
  | None => El Layout [El Skeleton []]
  | Some t =>
      El Layout
        [El Box
           [El Box
              [El Card
                 ([ El (CardHeader "h5" (name t ++ " / Alertmanager Configuration")) [];
                    El CardContent
                      [El Box
                         [El (YamlEditor "alertmanager-config.yaml"
                                (or_empty (match alertmanager h with
                                           | Some a => config a
                                           | None => None
                                           end))) []]];
                    El (Button (negb (String.eqb (status (formState h)) "active")))
                      [Text "publish"] ]
                  ++ ErrorPanel (remoteValidation (data (formState h))))]]]
  end.

(** The [disabled] prop of every button of a tree, in document order. *)
Fixpoint buttons (e : Element) : list bool :=
  match e with
  | El tag children =>
      match tag with
      | Button disabled => [disabled]
      | _ => []
      end ++ List.flat_map buttons children
  | Text _ => []
  end.

(** The texts of a forest: titles of card headers and text children. *)
Fixpoint texts (e : Element) : list string :=
  match e with
  | El tag children =>
      match tag with
      | CardHeader _ title => [title]
      | _ => []
      end ++ List.flat_map texts children
  | Text s => [s]
  end.

(** The user presses the publish button: nothing happens when it is missing
    or disabled, [handleSave] runs otherwise. *)
Definition click_publish (w : World) : World :=
  match buttons (AlertmanagerConfigEditor w) with
  | [false] => world_of (handleSave w)
  | _ => w
  end.

(** ** Worlds between two tasks

    [handleConfigChange] makes its two closures anew on every call, so a
    closure is called once, arms one timer and is done when it fires.  The
    predicates below describe the worlds the event loop can be in between
    two tasks. *)

(** The closure [handleConfigChange] makes for [o], before its first call. *)
Definition made_for (o : Origin) : Debounced :=
  match o with
  | ChangeStart =>
      {| origin := ChangeStart; wait := 300; leading := true; maxing := false;
         maxWait := 0; trailing := false; lastArgs := None; timerId := None;
         lastCallTime := None; lastInvokeTime := 0 |}
  | ChangePause =>
      {| origin := ChangePause; wait := 500; leading := false; maxing := true;
         maxWait := 5000; trailing := true; lastArgs := None; timerId := None;
         lastCallTime := None; lastInvokeTime := 0 |}
  end.

(** A closure of [validationCheckOnChangeStart] between two tasks. *)
Definition is_start (s : Debounced) : Prop :=
  origin s = ChangeStart /\ wait s = 300 /\ leading s = true
  /\ maxing s = false /\ trailing s = false /\ lastArgs s = None.

(** A closure of [checkValidationOnChangePause] between two tasks. *)
Definition is_pause (s : Debounced) : Prop :=
  origin s = ChangePause /\ wait s = 500 /\ leading s = false
  /\ maxing s = true /\ maxWait s = 5000 /\ trailing s = true
  /\ (forall a, lastArgs s = Some a -> snd a = None).

(** The closure [s] is waiting for its timer [tm]. *)
Definition armed (s : Debounced) (tm : Timer) : Prop :=
  lastCallTime s = Some (due tm - wait s)
  /\ (origin s = ChangePause -> is_some (lastArgs s) = true).

(** The worlds between two tasks: timer ids are handed out in step with the
    closures, every closure is one of the two kinds, and every pending
    timer belongs to a closure of its own that is waiting for it and is
    not overdue. *)
Record Inv (w : World) : Prop := {
  inv_next : nextTimerId w = List.length (heap w);
  inv_heap : Forall (fun s => is_start s \/ is_pause s) (heap w);
  inv_tids : List.NoDup (List.map tid (timers w));
  inv_timers :
    Forall (fun tm => tid tm = target tm /\ now w <= due tm
                      /\ exists s, heap w !! target tm = Some s /\ armed s tm)
           (timers w)
}.

(** The timer [tm] belongs to a closure made for [o]. *)
Definition targets (o : Origin) (w : World) (tm : Timer) : bool :=
  match heap w !! target tm with
  | Some s => Origin_eqb o (origin s)
  | None => false
  end.

(** The number of pending timers of closures made for [o]. *)
Definition pending (o : Origin) (w : World) : nat :=
  List.length (List.filter (targets o w) (timers w)).

Definition is_edit (l : Label) : bool :=
  match l with Edit _ _ _ => true | Tick => false end.

(** The number of edits among the labels of a run. *)
Definition edits (ls : list Label) : nat := List.length (List.filter is_edit ls).

(** The events of an attempt that does not ask for markers, and of the
    promise reactions: the only text parsed is [cfg]. *)
Definition quiet (cfg : string) (evs : list Event) : Prop :=
  Forall (fun e => match e with
                   | EvLoad text => text = cfg
                   | EvValidate | EvSetConfigValid _ => True
                   | _ => False
                   end) evs.

(** The events of one task: at most one invocation of [validationCheck]
    by a debounced wrapper (the oldest event of the task), then the attempt
    and the promise reactions. *)
Inductive step_events (cfg : string) : option Origin -> list Event -> Prop :=
| se_silent evs :
    quiet cfg evs -> step_events cfg None evs
| se_invoke o time filename evs :
    quiet cfg evs -> In (EvLoad cfg) evs ->
    step_events cfg (Some o) (evs ++ [EvInvoke o time filename]).

(** The times [ts] follow [t] and each other without going back. *)
Fixpoint nondecreasing (t : Z) (ts : list Z) : bool :=
  match ts with
  | [] => true
  | t' :: ts' => (t <=? t') && nondecreasing t' ts'
  end.

(** Every time of [ts] lies in the 300ms window that starts at [lo]. *)
Definition in_window (lo : Z) (ts : list Z) : bool :=
  List.forallb (fun t => (lo <=? t) && (t <=? lo + 300)) ts.

(** An edit given as time, new text and file name. *)
Definition edit_at (e : Z * string * string) : Label :=
  Edit (fst (fst e)) (snd (fst e)) (snd e).

Definition edit_time (e : Z * string * string) : Z := fst (fst e).

(** ** Sample collaborators, for running the pipeline on concrete inputs *)

Module Sample.

(** A stand-in for the parser: a text that starts with a tab is rejected,
    as YAML forbids tabs for indentation; any other text parses to itself. *)
Definition load (text : string) : Exn + string :=
  match text with
  | String c _ =>
      if Ascii.eqb c "009"%char then inl (YAMLException "bad indentation")
      else inr text
  | EmptyString => inr text
  end.

(** A stand-in for the schema: the data must mention a route first. *)
Definition validate (parsed : string) : bool := String.prefix "route:" parsed.

(** An editor that has flagged every document with one marker. *)
Definition flagged (time : Z) (filename : string) : Exn + list string :=
  inr ["Missing property"].

(** An editor that has not flagged anything. *)
Definition clean (time : Z) (filename : string) : Exn + list string := inr [].

(** An editor whose [Uri.parse] rejects every file name. *)
Definition rejecting (time : Z) (filename : string) : Exn + list string :=
  inl (OtherError "UriError").

Definition the_hooks : Hooks :=
  {| tenant := Some {| name := "prod" |};
     formId := "form-1";
     formState := {| status := "active"; data := defaultData |};
     alertmanager := Some {| header := Some "X-Scope: prod";
                             config := Some "route: {}" |} |}.

Definition file : string := "alertmanager-config.yaml".

(** Ten edits in 50ms, one every 5ms. *)
Definition burst_edits : list (Z * string * string) :=
  List.map (fun i => (Z.of_nat i * 5, "route: {}", file)) (List.seq 0 10).

Definition burst : list Label := List.map edit_at burst_edits.

(** Three edits 100ms apart, then silence until all six timers have fired. *)
Definition three_edits : list (Z * string * string) :=
  [(0, "r", file); (100, "ro", file); (200, "route: {}", file)].

Definition three_edits_then_pause : list Label :=
  List.map edit_at three_edits ++ List.repeat Tick 6.

(** One edit, then its two timers. *)
Definition one_edit_then_pause : list Label :=
  [Edit 0 "route: {}" file; Tick; Tick].

(** Two edits 100ms apart and the two timers due at 300 and 400; the next
    timer, due at 500, belongs to the first edit. *)
Definition second_edit_before_first_timer : list Label :=
  [Edit 0 "rouet: {}" file; Edit 100 "route: {}" file; Tick; Tick].

Definition run (markers : Z -> string -> Exn + list string) (ls : list Label)
    : option World :=
  exec load validate markers ls (mount 0 the_hooks).

End Sample.

(** ** Whole tasks

    The notions below serve to follow a property through the code of a task
    without running the closures by hand. *)

(** [m], run in a world where [P] holds, returns normally, in a world where
    [Q] holds. *)
Definition hoare {A} (P : World -> Prop) (m : M A) (Q : World -> Prop) : Prop :=
  forall w, P w -> exists a w', m w = Return a w' /\ Q w'.

(** The call a closure remembers, if any, passed no options. *)
Definition no_options (s : Debounced) : Prop :=
  forall a, lastArgs s = Some a -> snd a = None.

(** No closure remembers a call with options, and [X] holds. *)
Definition good (X : World -> Prop) (w : World) : Prop :=
  Forall no_options (heap w) /\ X w.

(** Every attempt so far has parsed once, and validated at most once. *)
Definition balanced (w : World) : Prop :=
  parse_calls w = (invocations ChangeStart w + invocations ChangePause w)%nat
  /\ (validate_calls w <= parse_calls w)%nat.

Definition is_uncaught (e : Event) : bool :=
  match e with EvUncaught _ => true | _ => false end.

(** The text of the last edit of a run that starts with the text [initial]. *)
Definition last_text (initial : string) (ls : list Label) : string :=
  List.fold_left (fun current l => match l with
                                   | Edit _ newConfig _ => newConfig
                                   | Tick => current
                                   end) ls initial.

Section Checked.

Context {ParsedData : Type}.
Variable yamlParser_load : string -> Exn + ParsedData.
Variable schema_validate : ParsedData -> bool.

(** The world [validationCheck] returns when it does not ask for markers:
    a text that does not parse is reported at once, for a text that parses
    the reaction of the promise is queued. *)
Definition checked (w : World) : World :=
  match yamlParser_load (configRef w) with
  | inl _ =>
      set_configValid (Some false)
        (set_trace (EvSetConfigValid false :: EvLoad (configRef w) :: trace w) w)
  | inr parsed =>
      set_microtasks
        (microtasks w ++ [ReactSetConfigValid (schema_validate parsed)])
        (set_trace (EvValidate :: EvLoad (configRef w) :: trace w) w)
  end.

End Checked.

(** * Properties *)

(** ** One validation attempt *)

Section Attempt.

Context {ParsedData Marker : Type}.
Variable yamlParser_load : string -> Exn + ParsedData.
Variable schema_validate : ParsedData -> bool.
Variable getModelMarkers : Z -> string -> Exn + list Marker.

Lemma count_cons p e tr :
  count p (e :: tr) = ((if p e then 1 else 0) + count p tr)%nat.
Proof. unfold count. simpl. destruct (p e); reflexivity. Qed.

Lemma count_app p tr1 tr2 : count p (tr1 ++ tr2) = (count p tr1 + count p tr2)%nat.
Proof. unfold count. rewrite List.filter_app, List.length_app. reflexivity. Qed.

(** C4: when the marker list an attempt obtained is not empty, the attempt
    completes with the verdict set to [false], and it has called neither
    the parser nor the schema validator, nor left a promise reaction. *)
Theorem C4_markers_short_circuit filename options w markers :
  wants_markers options = true ->
  getModelMarkers (now w) filename = inr markers ->
  markers <> [] ->
  exists w',
    validationCheck yamlParser_load schema_validate getModelMarkers
      filename options w = Return tt w'
    /\ configValid w' = Some false
    /\ parse_calls w' = parse_calls w
    /\ validate_calls w' = validate_calls w
    /\ microtasks w' = microtasks w.
Proof.
  intros Hopt Hm Hne.
  unfold validationCheck, bind, query_markers, log, modify, gets, bind.
  rewrite Hopt, Hm. simpl.
  destruct markers as [|m ms]; [congruence|].
  simpl. eexists. split; [reflexivity|].
  unfold parse_calls, validate_calls. simpl.
  rewrite !count_cons. simpl. auto.
Qed.

(** C5: when the current text does not parse, the attempt completes
    normally: the exception of the parser is caught inside it, the
    verdict is [false], the validator is not called and no promise
    reaction is left behind.  The marker query stands before the [try]; it
    is either not made or assumed to be answered. *)
Theorem C5_parse_failure_is_invalid filename options w e :
  yamlParser_load (configRef w) = inl e ->
  (wants_markers options = true ->
   exists markers, getModelMarkers (now w) filename = inr markers) ->
  exists w',
    validationCheck yamlParser_load schema_validate getModelMarkers
      filename options w = Return tt w'
    /\ configValid w' = Some false
    /\ validate_calls w' = validate_calls w
    /\ microtasks w' = microtasks w.
Proof.
  intros Hfail Hanswered.
  unfold validationCheck, bind.
  destruct (wants_markers options).
  - destruct (Hanswered eq_refl) as [markers Hm].
    unfold query_markers, log, modify, gets, bind. simpl. rewrite Hm. simpl.
    destruct markers as [|m ms]; simpl.
    + unfold try_catch, bind, gets, load, log, modify, bind. simpl.
      rewrite Hfail. simpl. eexists. split; [reflexivity|].
      unfold validate_calls. simpl. rewrite !count_cons. simpl. auto.
    + eexists. split; [reflexivity|].
      unfold validate_calls. simpl. rewrite !count_cons. simpl. auto.
  - unfold ret. simpl.
    unfold try_catch, bind, gets, load, log, modify, bind. simpl.
    rewrite Hfail. simpl. eexists. split; [reflexivity|].
    unfold validate_calls. simpl. rewrite !count_cons. simpl. auto.
Qed.

End Attempt.

(** C4 at a sample input: the editor has flagged the file and the attempt
    is asked to look at the markers. *)
Lemma C4_markers_short_circuit_witness :
  exists w',
    validationCheck Sample.load Sample.validate Sample.flagged Sample.file
      (Some {| useModelMarkers := true |}) (mount 0 Sample.the_hooks)
    = Return tt w'
    /\ configValid w' = Some false
    /\ parse_calls w' = parse_calls (mount 0 Sample.the_hooks)
    /\ validate_calls w' = validate_calls (mount 0 Sample.the_hooks)
    /\ microtasks w' = microtasks (mount 0 Sample.the_hooks).
Proof.
  apply (C4_markers_short_circuit Sample.load Sample.validate Sample.flagged
           Sample.file (Some {| useModelMarkers := true |})
           (mount 0 Sample.the_hooks) ["Missing property"]).
  - reflexivity.
  - reflexivity.
  - discriminate.
Defined.

(** C5 at a sample input: the text starts with a tab, and the attempt asks
    an editor that holds no marker. *)
Lemma C5_parse_failure_is_invalid_witness :
  exists w',
    validationCheck Sample.load Sample.validate Sample.clean Sample.file
      (Some {| useModelMarkers := true |})
      (set_configRef (String "009"%char "route: {}") (mount 0 Sample.the_hooks))
    = Return tt w'
    /\ configValid w' = Some false
    /\ validate_calls w'
       = validate_calls (set_configRef (String "009"%char "route: {}")
                           (mount 0 Sample.the_hooks))
    /\ microtasks w'
       = microtasks (set_configRef (String "009"%char "route: {}")
                       (mount 0 Sample.the_hooks)).
Proof.
  apply (C5_parse_failure_is_invalid Sample.load Sample.validate Sample.clean
           Sample.file (Some {| useModelMarkers := true |}) _
           (YAMLException "bad indentation")).
  - reflexivity.
  - intros _. exists []. reflexivity.
Defined.

(** ** The view: publishing and the error panel *)

(** The request [handleSave] builds from the current world for tenant [t]. *)
Lemma handleSave_named w t :
  tenant (hooks w) = Some t ->
  truthy (name t) = true ->
  handleSave w
  = Return tt
      (set_dispatched
         ({| upd_tenantId := name t;
             upd_header := or_empty (match alertmanager (hooks w) with
                                     | Some a => header a
                                     | None => None
                                     end);
             upd_config := configRef w;
             upd_formId := formId (hooks w) |} :: dispatched w) w).
Proof. intros Ht Hn. unfold handleSave. rewrite Ht, Hn. reflexivity. Qed.

Lemma buttons_of_view w t :
  tenant (hooks w) = Some t ->
  buttons (AlertmanagerConfigEditor w)
  = [negb (String.eqb (status (formState (hooks w))) "active")].
Proof.
  intros Ht. unfold AlertmanagerConfigEditor. rewrite Ht.
  unfold ErrorPanel, CondRender, optional_text.
  destruct (remoteValidation (data (formState (hooks w)))) as [[] []];
    reflexivity.
Qed.

(** C7: whatever the local verdict [v] is, a button of the view is enabled
    exactly when the status of the form is "active"; once the tenant is
    loaded the view has exactly one button, and for a named tenant
    [handleSave] dispatches one request that carries the tenant's name, the
    header, the current text of [configRef] and the form id. *)
Theorem C7_publish_ignores_verdict w v :
  (forall disabled,
      In disabled (buttons (AlertmanagerConfigEditor (set_configValid v w))) ->
      (disabled = false <-> status (formState (hooks w)) = "active"))
  /\ (forall t,
        tenant (hooks w) = Some t ->
        buttons (AlertmanagerConfigEditor (set_configValid v w))
        = [negb (String.eqb (status (formState (hooks w))) "active")]
        /\ (truthy (name t) = true ->
            exists request,
              handleSave (set_configValid v w)
              = Return tt (set_dispatched (request :: dispatched w)
                             (set_configValid v w))
              /\ upd_tenantId request = name t
              /\ upd_header request
                 = or_empty (match alertmanager (hooks w) with
                             | Some a => header a
                             | None => None
                             end)
              /\ upd_config request = configRef w
              /\ upd_formId request = formId (hooks w))).
Proof.
  split.
  - intros disabled Hin.
    destruct (tenant (hooks w)) as [t|] eqn:Ht.
    + rewrite (buttons_of_view (set_configValid v w) t Ht) in Hin.
      destruct Hin as [<-|[]]. simpl.
      rewrite negb_false_iff. apply String.eqb_eq.
    + unfold AlertmanagerConfigEditor in Hin. simpl in Hin.
      rewrite Ht in Hin. simpl in Hin. contradiction.
  - intros t Ht. split.
    + apply (buttons_of_view (set_configValid v w) t Ht).
    + intros Hn. eexists. split.
      * apply (handleSave_named (set_configValid v w) t); assumption.
      * simpl. auto.
Qed.

(** C7 at a sample input: the verdict says invalid, the form is active. *)
Lemma C7_publish_ignores_verdict_witness :
  buttons (AlertmanagerConfigEditor
             (set_configValid (Some false) (mount 0 Sample.the_hooks)))
  = [false]
  /\ (truthy "prod" = true ->
      exists request,
        handleSave (set_configValid (Some false) (mount 0 Sample.the_hooks))
        = Return tt (set_dispatched [request]
                       (set_configValid (Some false) (mount 0 Sample.the_hooks)))
        /\ upd_tenantId request = "prod"
        /\ upd_header request = "X-Scope: prod"
        /\ upd_config request = "route: {}"
        /\ upd_formId request = "form-1").
Proof.
  apply (proj2 (C7_publish_ignores_verdict (mount 0 Sample.the_hooks) (Some false))
           {| name := "prod" |}).
  reflexivity.
Defined.

(** C8: the error panel is empty when the response reports success, and
    otherwise consists of the fixed title followed by the raw response of
    the service; so a text [x] received as [error_raw_response] is on the
    panel exactly when [success] is false. *)
Theorem C8_error_panel_iff_failure response :
  (ErrorPanel response <> [] <-> success response = false)
  /\ (success response = true -> ErrorPanel response = [])
  /\ (forall x, error_raw_response response = Some x ->
        (In x (List.flat_map texts (ErrorPanel response))
         <-> success response = false)).
Proof.
  unfold ErrorPanel, CondRender.
  destruct response as [ok raw]. simpl.
  destruct ok; simpl.
  - split; [|split].
    + split; [congruence | discriminate].
    + reflexivity.
    + intros x _. split; [contradiction | discriminate].
  - split; [|split].
    + split; [reflexivity | discriminate].
    + discriminate.
    + intros x Hx. subst raw. simpl. split; [reflexivity | auto].
Qed.

(** C8 at a failed and at a successful response. *)
Lemma C8_error_panel_iff_failure_witness :
  In "X" (List.flat_map texts
            (ErrorPanel {| success := false; error_raw_response := Some "X" |}))
  /\ ErrorPanel {| success := true; error_raw_response := Some "X" |} = [].
Proof.
  split.
  - apply (proj2 (proj2 (C8_error_panel_iff_failure
                           {| success := false; error_raw_response := Some "X" |}))
             "X" eq_refl).
    reflexivity.
  - apply (proj1 (proj2 (C8_error_panel_iff_failure
                           {| success := true; error_raw_response := Some "X" |}))).
    reflexivity.
Defined.

(** C9: the stored verdict reaches no output.  Replacing it by any [v]
    changes neither the rendered tree nor the outcome of [handleSave] or
    of a click on the publish button, which are those of the original
    world with the verdict replaced afterwards. *)
Theorem C9_verdict_is_unobservable w v :
  AlertmanagerConfigEditor (set_configValid v w) = AlertmanagerConfigEditor w
  /\ dispatched (world_of (handleSave (set_configValid v w)))
     = dispatched (world_of (handleSave w))
  /\ world_of (handleSave (set_configValid v w))
     = set_configValid v (world_of (handleSave w))
  /\ click_publish (set_configValid v w) = set_configValid v (click_publish w).
Proof.
  assert (Hsave : world_of (handleSave (set_configValid v w))
                  = set_configValid v (world_of (handleSave w))).
  { unfold handleSave. simpl.
    destruct (tenant (hooks w)) as [t|]; [|reflexivity].
    destruct (truthy (name t)); reflexivity. }
  split; [reflexivity|]. split; [|split].
  - rewrite Hsave. reflexivity.
  - exact Hsave.
  - unfold click_publish.
    change (AlertmanagerConfigEditor (set_configValid v w))
      with (AlertmanagerConfigEditor w).
    destruct (buttons (AlertmanagerConfigEditor w)) as [|[] [|]]; auto.
Qed.

(** C10: without a tenant, or with a tenant whose name is empty,
    [handleSave] returns the world as it got it; with a named tenant it adds
    exactly one request to those dispatched, and the header of that request
    is the empty string when there is no alertmanager record or the record
    has no header. *)
Theorem C10_publish_needs_tenant_name w :
  (match tenant (hooks w) with
   | Some t => truthy (name t) = false
   | None => True
   end -> handleSave w = Return tt w)
  /\ (forall t, tenant (hooks w) = Some t -> truthy (name t) = true ->
        exists request,
          handleSave w = Return tt (set_dispatched (request :: dispatched w) w)
          /\ upd_tenantId request = name t
          /\ upd_config request = configRef w
          /\ upd_formId request = formId (hooks w)
          /\ (match alertmanager (hooks w) with
              | Some a => header a = None
              | None => True
              end -> upd_header request = "")
          /\ (forall a h, alertmanager (hooks w) = Some a -> header a = Some h ->
                upd_header request = h)).
Proof.
  split.
  - unfold handleSave. destruct (tenant (hooks w)) as [t|]; [|reflexivity].
    intros ->. reflexivity.
  - intros t Ht Hn. eexists. split; [apply (handleSave_named w t Ht Hn)|].
    simpl. repeat split.
    + destruct (alertmanager (hooks w)) as [a|]; [|reflexivity].
      intros ->. reflexivity.
    + intros a h -> ->. simpl. unfold truthy.
      destruct (String.eqb_spec h ""); subst; reflexivity.
Qed.

(** C10 at two sample inputs: a tenant without a name, and the sample
    tenant with an alertmanager record that has no header. *)
Lemma C10_publish_needs_tenant_name_witness :
  handleSave (mount 0 {| tenant := Some {| name := "" |}; formId := "form-1";
                         formState := {| status := "active"; data := defaultData |};
                         alertmanager := None |})
  = Return tt (mount 0 {| tenant := Some {| name := "" |}; formId := "form-1";
                          formState := {| status := "active"; data := defaultData |};
                          alertmanager := None |})
  /\ exists request,
      handleSave (mount 0 {| tenant := Some {| name := "prod" |};
                             formId := "form-1";
                             formState := {| status := "active";
                                             data := defaultData |};
                             alertmanager := Some {| header := None;
                                                     config := Some "route: {}" |} |})
      = Return tt
          (set_dispatched [request]
             (mount 0 {| tenant := Some {| name := "prod" |};
                         formId := "form-1";
                         formState := {| status := "active";
                                         data := defaultData |};
                         alertmanager := Some {| header := None;
                                                 config := Some "route: {}" |} |}))
      /\ upd_tenantId request = "prod"
      /\ upd_config request = "route: {}"
      /\ upd_formId request = "form-1"
      /\ (@None string = None -> upd_header request = "")
      /\ (forall a h,
            Some {| header := None; config := Some "route: {}" |} = Some a ->
            header a = Some h -> upd_header request = h).
Proof.
  split.
  - apply (proj1 (C10_publish_needs_tenant_name _)). reflexivity.
  - apply (proj2 (C10_publish_needs_tenant_name
                    (mount 0 {| tenant := Some {| name := "prod" |};
                                formId := "form-1";
                                formState := {| status := "active";
                                                data := defaultData |};
                                alertmanager :=
                                  Some {| header := None;
                                          config := Some "route: {}" |} |}))
             {| name := "prod" |}); reflexivity.
Defined.

(** ** The closures at work *)

Section Runs.

Context {ParsedData Marker : Type}.
Variable yamlParser_load : string -> Exn + ParsedData.
Variable schema_validate : ParsedData -> bool.
Variable getModelMarkers : Z -> string -> Exn + list Marker.

Lemma quiet_app cfg evs1 evs2 :
  quiet cfg evs1 -> quiet cfg evs2 -> quiet cfg (evs1 ++ evs2).
Proof. unfold quiet. intros H1 H2. apply Forall_app. split; assumption. Qed.

Lemma quiet_count cfg evs p :
  (forall text, p (EvLoad text) = false) -> p EvValidate = false ->
  (forall b, p (EvSetConfigValid b) = false) ->
  quiet cfg evs -> count p evs = 0%nat.
Proof.
  intros Hl Hv Hs Hq. induction Hq as [|e evs He _ IH]; [reflexivity|].
  rewrite count_cons, IH.
  destruct e; try contradiction; rewrite ?Hl, ?Hv, ?Hs; reflexivity.
Qed.

(** An attempt that is not asked for markers completes; it touches the
    verdict, the microtask queue and the trace only. *)
Lemma validationCheck_quiet filename options w :
  wants_markers options = false ->
  exists v ms evs,
    validationCheck yamlParser_load schema_validate getModelMarkers
      filename options w
    = Return tt (set_trace (evs ++ trace w)
                   (set_microtasks (microtasks w ++ ms) (set_configValid v w)))
    /\ quiet (configRef w) evs
    /\ In (EvLoad (configRef w)) evs.
Proof.
  intros Hopt.
  unfold validationCheck, bind. rewrite Hopt. unfold ret. simpl.
  unfold try_catch, bind, gets, load, log, modify, bind. simpl.
  destruct (yamlParser_load (configRef w)) as [e|parsed]; simpl.
  - exists (Some false), [], [EvSetConfigValid false; EvLoad (configRef w)].
    split.
    + unfold set_trace, set_microtasks, set_configValid. simpl.
      rewrite app_nil_r. reflexivity.
    + split; [repeat constructor | right; left; reflexivity].
  - exists (configValid w), [ReactSetConfigValid (schema_validate parsed)],
      [EvValidate; EvLoad (configRef w)].
    split; [reflexivity|].
    split; [repeat constructor | right; left; reflexivity].
Qed.

(** The promise reactions complete; they touch the verdict and the trace. *)
Lemma drain_quiet cfg ms w :
  exists v evs,
    drain ms w = Return tt (set_trace (evs ++ trace w) (set_configValid v w))
    /\ quiet cfg evs.
Proof.
  revert w. induction ms as [|[b] ms IH]; intros w.
  - exists (configValid w), []. split; [|constructor].
    destruct w. reflexivity.
  - simpl. unfold bind, setConfigValid, bind, log, modify. simpl.
    destruct (IH (set_configValid (Some b)
                    (set_trace (EvSetConfigValid b :: trace w) w)))
      as (v & evs & Heq & Hq).
    rewrite Heq. exists v, (evs ++ [EvSetConfigValid b]). split.
    + unfold set_trace, set_configValid. simpl.
      rewrite <- app_assoc. reflexivity.
    + apply quiet_app; [assumption | repeat constructor].
Qed.

End Runs.

Lemma with_closure_hit d k w s :
  heap w !! d = Some s -> with_closure d k w = k s w.
Proof. intros H. unfold with_closure. rewrite H. reflexivity. Qed.

Lemma update_hit d f w s :
  heap w !! d = Some s ->
  update d f w = Return tt (set_heap (<[d := f s]> (heap w)) w).
Proof. intros H. unfold update. rewrite (with_closure_hit d _ w s H). reflexivity. Qed.

Lemma lookup_written d (x s : Debounced) w :
  heap w !! d = Some s -> heap (set_heap (<[d := x]> (heap w)) w) !! d = Some x.
Proof.
  intros H. simpl. apply list_lookup_insert_eq. eapply lookup_lt_Some. exact H.
Qed.

Lemma written_twice d (x y : Debounced) w :
  set_heap (<[d := x]> (heap (set_heap (<[d := y]> (heap w)) w)))
           (set_heap (<[d := y]> (heap w)) w)
  = set_heap (<[d := x]> (heap w)) w.
Proof. unfold set_heap. simpl. rewrite list_insert_insert_eq. reflexivity. Qed.

Section Closures.

Context {ParsedData Marker : Type}.
Variable yamlParser_load : string -> Exn + ParsedData.
Variable schema_validate : ParsedData -> bool.
Variable getModelMarkers : Z -> string -> Exn + list Marker.

Lemma invokeFunc_hit d time w s :
  heap w !! d = Some s ->
  invokeFunc yamlParser_load schema_validate getModelMarkers d time w
  = func_apply yamlParser_load schema_validate getModelMarkers
      (origin s) time (lastArgs s)
      (set_heap (<[d := set_lastInvokeTime time (set_lastArgs None s)]> (heap w)) w).
Proof.
  intros H. unfold invokeFunc. rewrite (with_closure_hit d _ w s H).
  unfold bind. rewrite (update_hit d _ w s H). reflexivity.
Qed.

Lemma trailingEdge_hit d time w s :
  heap w !! d = Some s ->
  trailingEdge yamlParser_load schema_validate getModelMarkers d time w
  = if trailing s && is_some (lastArgs s) then
      func_apply yamlParser_load schema_validate getModelMarkers
        (origin s) time (lastArgs s)
        (set_heap (<[d := set_lastInvokeTime time
                             (set_lastArgs None (set_timerId None s))]> (heap w)) w)
    else
      Return tt (set_heap (<[d := set_lastArgs None (set_timerId None s)]> (heap w)) w).
Proof.
  intros H. unfold trailingEdge, bind.
  rewrite (update_hit d _ w s H).
  rewrite (with_closure_hit d _ _ _ (lookup_written d _ s w H)).
  change (trailing (set_timerId None s)) with (trailing s).
  change (lastArgs (set_timerId None s)) with (lastArgs s).
  destruct (trailing s && is_some (lastArgs s)).
  - rewrite (invokeFunc_hit d time _ _ (lookup_written d _ s w H)).
    rewrite written_twice. reflexivity.
  - rewrite (update_hit d _ _ _ (lookup_written d _ s w H)).
    rewrite written_twice. reflexivity.
Qed.

Lemma timerExpired_hit d w s :
  heap w !! d = Some s ->
  shouldInvoke s (now w) = true ->
  timerExpired yamlParser_load schema_validate getModelMarkers d w
  = trailingEdge yamlParser_load schema_validate getModelMarkers d (now w) w.
Proof.
  intros H Hs. unfold timerExpired, bind, gets.
  rewrite (with_closure_hit d _ w s H). rewrite Hs. reflexivity.
Qed.

Lemma debounced_first d args w s :
  heap w !! d = Some s ->
  lastCallTime s = None ->
  timerId s = None ->
  debounced yamlParser_load schema_validate getModelMarkers d args w
  = (if leading s
     then invokeFunc yamlParser_load schema_validate getModelMarkers d (now w)
     else ret tt)
      (set_timers
         (timers w ++ [{| tid := nextTimerId w;
                          due := now w + Z.max 0 (wait s);
                          target := d |}])
         (S (nextTimerId w))
         (set_heap
            (<[d := set_timerId (Some (nextTimerId w))
                      (set_lastInvokeTime (now w)
                         (set_lastCallTime (Some (now w))
                            (set_lastArgs (Some args) s)))]> (heap w)) w)).
Proof.
  intros H Hcall Htimer. unfold debounced, bind, gets.
  rewrite (with_closure_hit d _ w s H).
  rewrite (update_hit d _ w s H).
  rewrite (with_closure_hit d _ _ _ (lookup_written d _ s w H)).
  change (timerId (set_lastCallTime (Some (now w)) (set_lastArgs (Some args) s)))
    with (timerId s).
  rewrite Htimer.
  unfold shouldInvoke. rewrite Hcall.
  unfold leadingEdge, bind.
  rewrite (update_hit d _ _ _ (lookup_written d _ s w H)).
  rewrite written_twice.
  rewrite (with_closure_hit d _ _ _ (lookup_written d _ s w H)).
  unfold setTimeout.
  erewrite update_hit;
    [| simpl; apply list_lookup_insert_eq; eapply lookup_lt_Some; exact H].
  unfold set_heap, set_timers. simpl. rewrite list_insert_insert_eq.
  reflexivity.
Qed.

End Closures.

Section Steps.

Context {ParsedData Marker : Type}.
Variable yamlParser_load : string -> Exn + ParsedData.
Variable schema_validate : ParsedData -> bool.
Variable getModelMarkers : Z -> string -> Exn + list Marker.

Lemma func_apply_quiet o time args w :
  (forall a, args = Some a -> snd a = None) ->
  exists v ms evs,
    func_apply yamlParser_load schema_validate getModelMarkers o time args w
    = Return tt (set_trace (evs ++ trace w)
                   (set_microtasks (microtasks w ++ ms) (set_configValid v w)))
    /\ step_events (configRef w) (Some o) evs.
Proof.
  intros Hargs.
  assert (Hrun : forall filename,
    exists v ms evs,
      (log (EvInvoke o time filename) ;;
       validationCheck yamlParser_load schema_validate getModelMarkers
         filename None)%js w
      = Return tt (set_trace (evs ++ trace w)
                     (set_microtasks (microtasks w ++ ms) (set_configValid v w)))
      /\ step_events (configRef w) (Some o) evs).
  { intros filename. unfold bind, log, modify.
    destruct (validationCheck_quiet yamlParser_load schema_validate
                getModelMarkers filename None
                (set_trace (EvInvoke o time filename :: trace w) w) eq_refl)
      as (v & ms & evs & Heq & Hq & Hload).
    rewrite Heq. exists v, ms, (evs ++ [EvInvoke o time filename]). split.
    - unfold set_trace, set_microtasks, set_configValid. simpl.
      rewrite <- app_assoc. reflexivity.
    - constructor; assumption. }
  destruct args as [[filename options]|].
  - specialize (Hargs _ eq_refl). simpl in Hargs. subst options.
    apply Hrun.
  - apply Hrun.
Qed.

Lemma task_returns cfg callback w w1 :
  callback w = Return tt w1 ->
  exists v evs,
    task callback w
    = set_trace (evs ++ trace w1) (set_configValid v (set_microtasks [] w1))
    /\ quiet cfg evs.
Proof.
  intros Hcb. unfold task. rewrite Hcb. unfold run_microtasks.
  destruct (drain_quiet cfg (microtasks w1) (set_microtasks [] w1))
    as (v & evs & Heq & Hq).
  rewrite Heq. exists v, evs. split; [reflexivity | exact Hq].
Qed.

Lemma earliest_spec ts tm :
  earliest ts = Some tm ->
  In tm ts /\ forall tm', In tm' ts -> due tm <= due tm'.
Proof.
  revert tm. induction ts as [|t ts IH]; intros tm; simpl; [discriminate|].
  destruct (earliest ts) as [best|] eqn:Hbest.
  - destruct (IH best eq_refl) as [Hin Hmin].
    destruct (Z.leb_spec (due t) (due best)); intros [= <-].
    + split; [left; reflexivity|].
      intros tm' [<-|Hin']; [lia|]. specialize (Hmin _ Hin'). lia.
    + split; [right; exact Hin|].
      intros tm' [<-|Hin']; [lia|]. apply Hmin, Hin'.
  - intros [= <-]. destruct ts as [|t' ts].
    + split; [left; reflexivity|]. intros tm' [<-|[]]. lia.
    + simpl in Hbest. destruct (earliest ts); [destruct (_ <=? _)|]; discriminate.
Qed.

Lemma earliest_none ts : earliest ts = None -> ts = [].
Proof.
  destruct ts as [|t ts]; [reflexivity|]. simpl.
  destruct (earliest ts); [destruct (_ <=? _)|]; discriminate.
Qed.

(** What a timer task does in a world between two tasks. *)
Lemma tick_spec w w' :
  Inv w ->
  step yamlParser_load schema_validate getModelMarkers Tick w = Some w' ->
  exists tm s s' v evs,
    In tm (timers w)
    /\ (forall tm', In tm' (timers w) -> due tm <= due tm')
    /\ heap w !! target tm = Some s
    /\ (is_start s' \/ is_pause s')
    /\ origin s' = origin s
    /\ step_events (configRef w)
         (match origin s with
          | ChangeStart => None
          | ChangePause => Some ChangePause
          end) evs
    /\ w' = {| now := due tm; configRef := configRef w; configValid := v;
               heap := <[target tm := s']> (heap w);
               timers := List.filter (fun x => negb (Nat.eqb (tid x) (tid tm)))
                           (timers w);
               nextTimerId := nextTimerId w; microtasks := [];
               trace := evs ++ trace w; hooks := hooks w;
               dispatched := dispatched w |}.
Proof.
  intros HI Hstep. simpl in Hstep.
  destruct (earliest (timers w)) as [tm|] eqn:Hfirst; [|discriminate].
  injection Hstep as <-.
  destruct (earliest_spec _ _ Hfirst) as [Hin Hmin].
  pose proof (proj1 (List.Forall_forall _ _) (inv_timers w HI) tm Hin)
    as (Htid & Hnow & s & Hs & Hcall & Hargs).
  pose proof (proj1 (List.Forall_forall _ _) (inv_heap w HI) s) as Hkind.
  assert (Hs_in : In s (heap w)).
  { apply list_elem_of_In. eapply list_elem_of_lookup_2. exact Hs. }
  specialize (Hkind Hs_in).
  rewrite (Z.max_r _ _ Hnow).
  set (w1 := remove_timer (tid tm) (set_now (due tm) w)).
  assert (Hs1 : heap w1 !! target tm = Some s) by exact Hs.
  assert (Hfire : shouldInvoke s (now w1) = true).
  { unfold shouldInvoke. rewrite Hcall. simpl.
    replace (due tm - (due tm - wait s)) with (wait s) by lia.
    rewrite Z.leb_refl. reflexivity. }
  pose proof (timerExpired_hit yamlParser_load schema_validate getModelMarkers
                _ _ _ Hs1 Hfire) as Hexp.
  rewrite (trailingEdge_hit yamlParser_load schema_validate getModelMarkers
             _ _ _ _ Hs1) in Hexp.
  destruct Hkind as [Hstart | Hpause].
  - destruct Hstart as (Ho & Hw & Hl & Hm & Ht & Ha).
    rewrite Ht in Hexp. cbn [andb] in Hexp.
    destruct (task_returns (configRef w) _ _ _ Hexp) as (v & evs & Heq & Hq).
    exists tm, s, (set_lastArgs None (set_timerId None s)), v, evs.
    split; [exact Hin|]. split; [exact Hmin|]. split; [exact Hs|].
    split; [left; repeat split; assumption|]. split; [reflexivity|].
    split.
    + rewrite Ho. constructor. exact Hq.
    + rewrite Heq. unfold w1, remove_timer. reflexivity.
  - destruct Hpause as (Ho & Hw & Hl & Hm & Hmw & Ht & Ha).
    rewrite Ht, (Hargs Ho) in Hexp. cbn [andb] in Hexp.
    destruct (func_apply_quiet (origin s) (now w1) (lastArgs s)
                (set_heap
                   (<[target tm := set_lastInvokeTime (now w1)
                                     (set_lastArgs None (set_timerId None s))]>
                      (heap w1)) w1) Ha)
      as (v1 & ms & evs1 & Heq1 & Hev1).
    rewrite Heq1 in Hexp.
    destruct (task_returns (configRef w) _ _ _ Hexp) as (v & evs & Heq & Hq).
    exists tm, s, (set_lastInvokeTime (due tm) (set_lastArgs None (set_timerId None s))),
      v, (evs ++ evs1).
    split; [exact Hin|]. split; [exact Hmin|]. split; [exact Hs|].
    split; [right; repeat split; try assumption; discriminate|].
    split; [reflexivity|]. split.
    + rewrite Ho in *. inversion Hev1; subst.
      rewrite app_assoc. constructor.
      * apply quiet_app; assumption.
      * apply in_or_app. right. assumption.
    + rewrite Heq. unfold w1, remove_timer. simpl.
      rewrite <- app_assoc. reflexivity.
Qed.

End Steps.

Lemma insert_last_but_one {A} (l : list A) (a b x : A) :
  <[List.length l := x]> (l ++ [a; b]) = l ++ [x; b].
Proof.
  replace (List.length l) with (List.length l + 0)%nat by lia.
  rewrite insert_app_r. reflexivity.
Qed.

Lemma insert_last {A} (l : list A) (a b y : A) :
  <[S (List.length l) := y]> (l ++ [a; b]) = l ++ [a; y].
Proof.
  replace (S (List.length l)) with (List.length l + 1)%nat by lia.
  rewrite insert_app_r. reflexivity.
Qed.

Lemma lookup_last_but_one {A} (l : list A) (a b : A) :
  (l ++ [a; b]) !! List.length l = Some a.
Proof. apply list_lookup_middle. reflexivity. Qed.

Lemma lookup_last {A} (l : list A) (a b : A) :
  (l ++ [a; b]) !! S (List.length l) = Some b.
Proof.
  change (l ++ [a; b]) with (l ++ [a] ++ [b]). rewrite app_assoc.
  apply list_lookup_middle. rewrite length_app. simpl. lia.
Qed.

Lemma world_eq w1 w2 :
  now w1 = now w2 -> configRef w1 = configRef w2 ->
  configValid w1 = configValid w2 -> heap w1 = heap w2 ->
  timers w1 = timers w2 -> nextTimerId w1 = nextTimerId w2 ->
  microtasks w1 = microtasks w2 -> trace w1 = trace w2 ->
  hooks w1 = hooks w2 -> dispatched w1 = dispatched w2 ->
  w1 = w2.
Proof. destruct w1, w2. simpl. intros. subst. reflexivity. Qed.

Section Edits.

Context {ParsedData Marker : Type}.
Variable yamlParser_load : string -> Exn + ParsedData.
Variable schema_validate : ParsedData -> bool.
Variable getModelMarkers : Z -> string -> Exn + list Marker.

Lemma debounce_start w :
  debounce ChangeStart 300
    (Some {| opt_leading := Some true; opt_maxWait := None;
             opt_trailing := Some false |}) w
  = Return (List.length (heap w)) (set_heap (heap w ++ [made_for ChangeStart]) w).
Proof. reflexivity. Qed.

Lemma debounce_pause w :
  debounce ChangePause 500
    (Some {| opt_leading := None; opt_maxWait := Some 5000;
             opt_trailing := None |}) w
  = Return (List.length (heap w)) (set_heap (heap w ++ [made_for ChangePause]) w).
Proof. reflexivity. Qed.

(** The two calls at the end of [handleConfigChange], on the two closures it
    has just made. *)
Lemma first_calls filename w h :
  heap w = h ++ [made_for ChangeStart; made_for ChangePause] ->
  exists s1 s2 v ms evs,
    is_start s1 /\ is_pause s2
    /\ lastCallTime s1 = Some (now w) /\ lastCallTime s2 = Some (now w)
    /\ is_some (lastArgs s2) = true
    /\ step_events (configRef w) (Some ChangeStart) evs
    /\ (debounced yamlParser_load schema_validate getModelMarkers
          (List.length h) (filename, None) ;;
        debounced yamlParser_load schema_validate getModelMarkers
          (S (List.length h)) (filename, None))%js w
       = Return tt
           {| now := now w; configRef := configRef w; configValid := v;
              heap := h ++ [s1; s2];
              timers := timers w
                        ++ [{| tid := nextTimerId w; due := now w + 300;
                               target := List.length h |};
                            {| tid := S (nextTimerId w); due := now w + 500;
                               target := S (List.length h) |}];
              nextTimerId := S (S (nextTimerId w));
              microtasks := microtasks w ++ ms;
              trace := evs ++ trace w; hooks := hooks w;
              dispatched := dispatched w |}.
Proof.
  intros Hheap. unfold bind.
  assert (H1 : heap w !! List.length h = Some (made_for ChangeStart)).
  { rewrite Hheap. apply lookup_last_but_one. }
  rewrite (debounced_first _ _ _ _ _ _ _ H1 eq_refl eq_refl).
  change (leading (made_for ChangeStart)) with true. cbv iota.
  set (sa := set_timerId (Some (nextTimerId w))
               (set_lastInvokeTime (now w)
                  (set_lastCallTime (Some (now w))
                     (set_lastArgs (Some (filename, None))
                        (made_for ChangeStart))))).
  match goal with
  | |- context [invokeFunc _ _ _ _ _ ?wB] => set (w1 := wB)
  end.
  assert (H2 : heap w1 !! List.length h = Some sa).
  { unfold w1. cbn [heap set_timers set_heap].
    apply list_lookup_insert_eq. eapply lookup_lt_Some. exact H1. }
  rewrite (invokeFunc_hit _ _ _ _ _ _ _ H2).
  change (origin sa) with ChangeStart.
  change (lastArgs sa) with (Some (filename, @None validationCheckOptions)).
  set (sb := set_lastInvokeTime (now w) (set_lastArgs None sa)).
  set (w2 := set_heap (<[List.length h := sb]> (heap w1)) w1).
  destruct (func_apply_quiet yamlParser_load schema_validate getModelMarkers
              ChangeStart (now w) (Some (filename, None)) w2)
    as (v & ms & evs & Heq & Hev).
  { intros a [= <-]. reflexivity. }
  rewrite Heq.
  match goal with
  | |- context [debounced _ _ _ _ _ ?wC] => set (w3 := wC)
  end.
  assert (H3 : heap w3 !! S (List.length h) = Some (made_for ChangePause)).
  { unfold w3, w2, w1.
    cbn [heap set_trace set_microtasks set_configValid set_heap set_timers].
    rewrite !list_lookup_insert_ne by lia. rewrite Hheap. apply lookup_last. }
  rewrite (debounced_first _ _ _ _ _ _ _ H3 eq_refl eq_refl).
  change (leading (made_for ChangePause)) with false. cbv iota. unfold ret.
  set (sc := set_timerId (Some (nextTimerId w3))
               (set_lastInvokeTime (now w3)
                  (set_lastCallTime (Some (now w3))
                     (set_lastArgs (Some (filename, None))
                        (made_for ChangePause))))).
  exists sb, sc, v, ms, evs.
  split; [repeat split; reflexivity|].
  split; [repeat split; try reflexivity; intros a [= <-]; reflexivity|].
  split; [reflexivity|]. split; [reflexivity|]. split; [reflexivity|].
  split; [exact Hev|].
  apply (f_equal (Return tt)). apply world_eq; try reflexivity.
  - unfold w3, w2, w1.
    cbn [heap set_trace set_microtasks set_configValid set_heap set_timers].
    rewrite Hheap, list_insert_insert_eq, insert_last_but_one, insert_last.
    reflexivity.
  - unfold w3, w2, w1.
    cbn [timers set_trace set_microtasks set_configValid set_heap set_timers].
    rewrite <- app_assoc. reflexivity.
Qed.

Lemma handleConfigChange_runs newConfig filename w :
  exists s1 s2 v ms evs,
    is_start s1 /\ is_pause s2
    /\ lastCallTime s1 = Some (now w) /\ lastCallTime s2 = Some (now w)
    /\ is_some (lastArgs s2) = true
    /\ step_events newConfig (Some ChangeStart) evs
    /\ handleConfigChange yamlParser_load schema_validate getModelMarkers
         newConfig filename w
       = Return tt
           {| now := now w; configRef := newConfig; configValid := v;
              heap := heap w ++ [s1; s2];
              timers := timers w
                        ++ [{| tid := nextTimerId w; due := now w + 300;
                               target := List.length (heap w) |};
                            {| tid := S (nextTimerId w); due := now w + 500;
                               target := S (List.length (heap w)) |}];
              nextTimerId := S (S (nextTimerId w));
              microtasks := microtasks w ++ ms;
              trace := evs ++ trace w; hooks := hooks w;
              dispatched := dispatched w |}.
Proof.
  unfold handleConfigChange.
  unfold bind at 1. rewrite debounce_start.
  unfold bind at 1. rewrite debounce_pause.
  unfold bind at 1. unfold modify.
  cbn [heap set_heap].
  replace (List.length (heap w ++ [made_for ChangeStart]))
    with (S (List.length (heap w))) by (rewrite length_app; simpl; lia).
  set (w0 := set_configRef newConfig _).
  destruct (first_calls filename w0 (heap w)) as
    (s1 & s2 & v & ms & evs & Hs1 & Hs2 & Hc1 & Hc2 & Ha & Hev & Heq).
  { unfold w0. cbn [heap set_configRef set_heap].
    rewrite <- app_assoc. reflexivity. }
  exists s1, s2, v, ms, evs.
  repeat (split; [assumption|]).
  exact Heq.
Qed.

End Edits.

Section Invariant.

Context {ParsedData Marker : Type}.
Variable yamlParser_load : string -> Exn + ParsedData.
Variable schema_validate : ParsedData -> bool.
Variable getModelMarkers : Z -> string -> Exn + list Marker.

(** What an edit task does, in any world. *)
Lemma edit_spec t newConfig filename w w' :
  step yamlParser_load schema_validate getModelMarkers
    (Edit t newConfig filename) w = Some w' ->
  now w <= t
  /\ (forall tm, In tm (timers w) -> t <= due tm)
  /\ exists s1 s2 v evs,
      is_start s1 /\ is_pause s2
      /\ lastCallTime s1 = Some t /\ lastCallTime s2 = Some t
      /\ is_some (lastArgs s2) = true
      /\ step_events newConfig (Some ChangeStart) evs
      /\ w' = {| now := t; configRef := newConfig; configValid := v;
                 heap := heap w ++ [s1; s2];
                 timers := timers w
                           ++ [{| tid := nextTimerId w; due := t + 300;
                                  target := List.length (heap w) |};
                               {| tid := S (nextTimerId w); due := t + 500;
                                  target := S (List.length (heap w)) |}];
                 nextTimerId := S (S (nextTimerId w));
                 microtasks := [];
                 trace := evs ++ trace w; hooks := hooks w;
                 dispatched := dispatched w |}.
Proof.
  unfold step. intros Hstep.
  destruct (Z.leb_spec (now w) t) as [Hnow|]; [|discriminate].
  cbn [andb] in Hstep.
  split; [exact Hnow|]. split.
  - intros tm Hin. destruct (earliest (timers w)) as [first|] eqn:Hfirst.
    + destruct (Z.leb_spec t (due first)); [|discriminate].
      destruct (earliest_spec _ _ Hfirst) as [_ Hmin].
      specialize (Hmin _ Hin). lia.
    + apply earliest_none in Hfirst. rewrite Hfirst in Hin. contradiction.
  - destruct (match earliest (timers w) with
              | Some tm => t <=? due tm
              | None => true
              end); [|discriminate].
    injection Hstep as <-.
    destruct (handleConfigChange_runs yamlParser_load schema_validate
                getModelMarkers newConfig filename (set_now t w))
      as (s1 & s2 & v0 & ms & evs0 & Hs1 & Hs2 & Hc1 & Hc2 & Ha & Hev & Heq).
    destruct (task_returns newConfig _ _ _ Heq) as (v & evs & Htask & Hq).
    inversion Hev as [|o time fname evs1 Hq1 Hload Ho Hevs]; subst.
    exists s1, s2, v, ((evs ++ evs1) ++ [EvInvoke ChangeStart time fname]).
    repeat (split; [assumption|]). split.
    + constructor.
      * apply quiet_app; assumption.
      * apply in_or_app. right. assumption.
    + rewrite Htask. unfold set_trace, set_configValid, set_microtasks.
      cbn [now configRef configValid heap timers nextTimerId microtasks trace
           hooks dispatched set_now].
      rewrite <- !app_assoc. reflexivity.
Qed.

Lemma edit_enabled t newConfig filename w :
  now w <= t ->
  (forall tm, In tm (timers w) -> t <= due tm) ->
  exists w',
    step yamlParser_load schema_validate getModelMarkers
      (Edit t newConfig filename) w = Some w'.
Proof.
  intros Hnow Hdue. unfold step.
  destruct (Z.leb_spec (now w) t); [|lia]. cbn [andb].
  destruct (earliest (timers w)) as [first|] eqn:Hfirst.
  - destruct (earliest_spec _ _ Hfirst) as [Hin _].
    specialize (Hdue _ Hin).
    destruct (Z.leb_spec t (due first)); [|lia]. eexists. reflexivity.
  - eexists. reflexivity.
Qed.

Lemma tick_enabled w :
  timers w <> [] ->
  exists w',
    step yamlParser_load schema_validate getModelMarkers Tick w = Some w'.
Proof.
  intros Hne. unfold step.
  destruct (earliest (timers w)) eqn:Hfirst; [eexists; reflexivity|].
  apply earliest_none in Hfirst. contradiction.
Qed.

Lemma inv_mount t0 h : Inv (mount t0 h).
Proof. constructor; simpl; constructor. Qed.

Lemma timer_target_bound w tm :
  Inv w -> In tm (timers w) -> (tid tm < nextTimerId w)%nat.
Proof.
  intros HI Hin.
  destruct (proj1 (List.Forall_forall _ _) (inv_timers w HI) tm Hin)
    as (Htid & _ & s & Hs & _).
  rewrite Htid, (inv_next w HI). eapply lookup_lt_Some. exact Hs.
Qed.

Lemma inv_edit t newConfig filename w w' :
  Inv w ->
  step yamlParser_load schema_validate getModelMarkers
    (Edit t newConfig filename) w = Some w' ->
  Inv w'.
Proof.
  intros HI Hstep.
  destruct (edit_spec _ _ _ _ _ Hstep)
    as (Hnow & Hdue & s1 & s2 & v & evs & Hs1 & Hs2 & Hc1 & Hc2 & Ha & _ & ->).
  constructor; cbn [now heap timers nextTimerId].
  - rewrite length_app, (inv_next w HI). simpl. lia.
  - apply Forall_app. split; [exact (inv_heap w HI)|].
    constructor; [left; exact Hs1|]. constructor; [right; exact Hs2|]. constructor.
  - rewrite List.map_app. cbn [List.map tid].
    apply NoDup_ListNoDup, NoDup_app.
    split; [apply NoDup_ListNoDup; exact (inv_tids w HI)|].
    split.
    + intros x Hx Hnew. apply list_elem_of_In in Hx.
      apply List.in_map_iff in Hx. destruct Hx as (tm & <- & Hin).
      pose proof (timer_target_bound w tm HI Hin).
      apply list_elem_of_In in Hnew. simpl in Hnew.
      destruct Hnew as [Hn|[Hn|[]]]; lia.
    + apply NoDup_ListNoDup. constructor.
      * simpl. intros [Hn|[]]. lia.
      * constructor; [simpl; tauto | constructor].
  - apply Forall_app. split.
    + apply List.Forall_forall. intros tm Hin.
      destruct (proj1 (List.Forall_forall _ _) (inv_timers w HI) tm Hin)
        as (Htid & _ & s & Hs & Harmed).
      split; [exact Htid|]. split; [apply Hdue, Hin|].
      exists s. split; [apply lookup_app_l_Some; exact Hs | exact Harmed].
    + destruct Hs1 as (Ho1 & Hw1 & _). destruct Hs2 as (Ho2 & Hw2 & _).
      constructor; [|constructor; [|constructor]]; cbn [tid target due].
      * split; [apply (inv_next w HI)|]. split; [lia|].
        exists s1. split; [apply lookup_last_but_one|].
        unfold armed. cbn [due]. split.
        -- rewrite Hc1, Hw1. f_equal. lia.
        -- rewrite Ho1. discriminate.
      * split; [f_equal; apply (inv_next w HI)|]. split; [lia|].
        exists s2. split; [apply lookup_last|].
        unfold armed. cbn [due]. split.
        -- rewrite Hc2, Hw2. f_equal. lia.
        -- intros _. exact Ha.
Qed.

End Invariant.

Lemma NoDup_map_filter {A B} (f : A -> B) (p : A -> bool) (l : list A) :
  List.NoDup (List.map f l) -> List.NoDup (List.map f (List.filter p l)).
Proof.
  induction l as [|x l IH]; simpl; intros Hnd; [constructor|].
  inversion Hnd as [|? ? Hnotin Hnd']; subst.
  destruct (p x); [|apply IH, Hnd'].
  simpl. constructor; [|apply IH, Hnd'].
  intros Hin. apply Hnotin.
  apply List.in_map_iff in Hin. destruct Hin as (y & Hy & Hin).
  apply List.filter_In in Hin. apply List.in_map_iff. exists y. tauto.
Qed.

(** Taking the timer [tm] out of the pending ones takes out exactly [tm]. *)
Lemma filter_remove (p : Timer -> bool) (l : list Timer) (tm : Timer) :
  List.NoDup (List.map tid l) ->
  In tm l ->
  List.length (List.filter p l)
  = (List.length
       (List.filter p
          (List.filter (fun x => negb (Nat.eqb (tid x) (tid tm))) l))
     + (if p tm then 1 else 0))%nat.
Proof.
  induction l as [|x l IH]; simpl; intros Hnd Hin; [contradiction|].
  inversion Hnd as [|? ? Hnotin Hnd']; subst.
  destruct (Nat.eqb_spec (tid x) (tid tm)) as [Heq|Hne]; simpl.
  - assert (x = tm) as ->.
    { destruct Hin as [Hx|Hin]; [exact Hx|].
      exfalso. apply Hnotin. rewrite Heq. apply List.in_map. exact Hin. }
    assert (Hall : List.filter (fun x => negb (Nat.eqb (tid x) (tid tm))) l = l).
    { clear IH Hin Hnd Hnd'. induction l as [|y l IH]; simpl; [reflexivity|].
      destruct (Nat.eqb_spec (tid y) (tid tm)) as [Hy|Hy]; simpl.
      - exfalso. apply Hnotin. left. exact Hy.
      - f_equal. apply IH. intros Hin. apply Hnotin. right. exact Hin. }
    rewrite Hall. destruct (p tm); simpl; lia.
  - destruct Hin as [Hx|Hin]; [congruence|].
    specialize (IH Hnd' Hin).
    destruct (p x); simpl; lia.
Qed.

Lemma filter_true {A} (l : list A) : List.filter (fun _ => true) l = l.
Proof. induction l; simpl; congruence. Qed.

Lemma step_events_invocations cfg k evs o :
  step_events cfg k evs ->
  count (is_invoke o) evs
  = match k with
    | Some o' => if Origin_eqb o o' then 1%nat else 0%nat
    | None => 0%nat
    end.
Proof.
  intros [evs' Hq | o' time filename evs' Hq _].
  - apply (quiet_count cfg); auto.
  - rewrite count_app, (quiet_count cfg evs'); auto.
    rewrite count_cons. simpl. destruct (Origin_eqb o o'); reflexivity.
Qed.

Lemma step_events_marker_queries cfg k evs :
  step_events cfg k evs -> count is_getModelMarkers evs = 0%nat.
Proof.
  intros [evs' Hq | o' time filename evs' Hq _].
  - apply (quiet_count cfg); auto.
  - rewrite count_app, (quiet_count cfg evs'); auto.
Qed.

Lemma step_events_loads cfg k evs :
  step_events cfg k evs ->
  Forall (fun e => forall text, e = EvLoad text -> text = cfg) evs.
Proof.
  assert (Hquiet : forall evs', quiet cfg evs' ->
            Forall (fun e => forall text, e = EvLoad text -> text = cfg) evs').
  { intros evs' Hq. eapply Forall_impl; [exact Hq|].
    intros e He text ->. exact He. }
  intros [evs' Hq | o' time filename evs' Hq _].
  - apply Hquiet, Hq.
  - apply Forall_app. split; [apply Hquiet, Hq|].
    constructor; [discriminate | constructor].
Qed.

Section Counting.

Context {ParsedData Marker : Type}.
Variable yamlParser_load : string -> Exn + ParsedData.
Variable schema_validate : ParsedData -> bool.
Variable getModelMarkers : Z -> string -> Exn + list Marker.

Lemma inv_tick w w' :
  Inv w ->
  step yamlParser_load schema_validate getModelMarkers Tick w = Some w' ->
  Inv w'.
Proof.
  intros HI Hstep.
  destruct (tick_spec _ _ _ _ _ HI Hstep)
    as (tm & s & s' & v & evs & Hin & Hmin & Hs & Hkind & Ho & _ & ->).
  destruct (proj1 (List.Forall_forall _ _) (inv_timers w HI) tm Hin)
    as (Htid & _).
  constructor; cbn [now heap timers nextTimerId].
  - rewrite length_insert. apply (inv_next w HI).
  - apply Forall_insert; [exact (inv_heap w HI) | exact Hkind].
  - apply NoDup_map_filter. exact (inv_tids w HI).
  - apply List.Forall_forall. intros tm' Hin'.
    apply List.filter_In in Hin'. destruct Hin' as [Hin' Hne].
    destruct (proj1 (List.Forall_forall _ _) (inv_timers w HI) tm' Hin')
      as (Htid' & _ & s0 & Hs0 & Harmed).
    split; [exact Htid'|]. split; [apply Hmin, Hin'|].
    exists s0. split; [|exact Harmed].
    rewrite list_lookup_insert_ne; [exact Hs0|].
    destruct (Nat.eqb_spec (tid tm') (tid tm)); [discriminate|]. congruence.
Qed.

Lemma step_inv l w w' :
  Inv w ->
  step yamlParser_load schema_validate getModelMarkers l w = Some w' ->
  Inv w'.
Proof.
  destruct l as [t newConfig filename|]; [apply inv_edit | apply inv_tick].
Qed.

(** The bookkeeping of one task: what it adds to the trace, and what it
    does to the pending timers. *)
Lemma step_counts l w w' :
  Inv w ->
  step yamlParser_load schema_validate getModelMarkers l w = Some w' ->
  invocations ChangeStart w'
  = (invocations ChangeStart w + (if is_edit l then 1 else 0))%nat
  /\ (invocations ChangePause w' + pending ChangePause w'
      = invocations ChangePause w + pending ChangePause w
        + (if is_edit l then 1 else 0))%nat
  /\ marker_queries w' = marker_queries w
  /\ (List.length (timers w') + (if is_edit l then 0 else 1)
      = List.length (timers w) + (if is_edit l then 2 else 0))%nat.
Proof.
  intros HI Hstep. destruct l as [t newConfig filename|]; cbn [is_edit].
  - destruct (edit_spec _ _ _ _ _ _ _ _ Hstep)
      as (_ & _ & s1 & s2 & v & evs & Hs1 & Hs2 & _ & _ & _ & Hev & Hw').
    assert (Hheap : heap w' = heap w ++ [s1; s2]) by (rewrite Hw'; reflexivity).
    assert (Htrace : trace w' = evs ++ trace w) by (rewrite Hw'; reflexivity).
    assert (Htimers :
              timers w'
              = timers w
                ++ [{| tid := nextTimerId w; due := t + 300;
                       target := List.length (heap w) |};
                    {| tid := S (nextTimerId w); due := t + 500;
                       target := S (List.length (heap w)) |}])
      by (rewrite Hw'; reflexivity).
    clear Hw'.
    assert (Hold : List.filter (targets ChangePause w') (timers w)
                   = List.filter (targets ChangePause w) (timers w)).
    { apply List.filter_ext_in. intros tm Hin.
      destruct (proj1 (List.Forall_forall _ _) (inv_timers w HI) tm Hin)
        as (_ & _ & s & Hs & _).
      unfold targets. rewrite Hheap.
      rewrite (lookup_app_l_Some _ _ _ _ Hs), Hs. reflexivity. }
    assert (Hnew1 : targets ChangePause w'
                      {| tid := nextTimerId w; due := t + 300;
                         target := List.length (heap w) |} = false).
    { unfold targets. rewrite Hheap. cbn [target].
      rewrite lookup_last_but_one. destruct Hs1 as (-> & _). reflexivity. }
    assert (Hnew2 : targets ChangePause w'
                      {| tid := S (nextTimerId w); due := t + 500;
                         target := S (List.length (heap w)) |} = true).
    { unfold targets. rewrite Hheap. cbn [target].
      rewrite lookup_last. destruct Hs2 as (-> & _). reflexivity. }
    unfold invocations, marker_queries, pending.
    rewrite Htrace, Htimers, !count_app.
    rewrite !(step_events_invocations _ _ _ _ Hev).
    rewrite (step_events_marker_queries _ _ _ Hev).
    rewrite List.filter_app, !List.length_app, Hold.
    cbn [List.filter]. rewrite Hnew1, Hnew2.
    simpl. repeat split; lia.
  - destruct (tick_spec _ _ _ _ _ HI Hstep)
      as (tm & s & s' & v & evs & Hin & Hmin & Hs & Hkind & Ho & Hev & Hw').
    assert (Hheap : heap w' = <[target tm := s']> (heap w))
      by (rewrite Hw'; reflexivity).
    assert (Htrace : trace w' = evs ++ trace w) by (rewrite Hw'; reflexivity).
    assert (Htimers :
              timers w'
              = List.filter (fun x => negb (Nat.eqb (tid x) (tid tm))) (timers w))
      by (rewrite Hw'; reflexivity).
    clear Hw'.
    assert (Hsame : forall l, List.filter (targets ChangePause w') l
                              = List.filter (targets ChangePause w) l).
    { intros l. apply List.filter_ext. intros x. unfold targets. rewrite Hheap.
      destruct (Nat.eq_dec (target tm) (target x)) as [Heq|Hne].
      - rewrite <- Heq, Hs.
        rewrite list_lookup_insert_eq by (eapply lookup_lt_Some; exact Hs).
        rewrite Ho. reflexivity.
      - rewrite list_lookup_insert_ne by exact Hne. reflexivity. }
    pose proof (filter_remove (targets ChangePause w) (timers w) tm
                  (inv_tids w HI) Hin) as Hpend.
    pose proof (filter_remove (fun _ => true) (timers w) tm
                  (inv_tids w HI) Hin) as Hlen.
    rewrite !filter_true in Hlen.
    assert (Hfired : targets ChangePause w tm = Origin_eqb ChangePause (origin s)).
    { unfold targets. rewrite Hs. reflexivity. }
    rewrite Hfired in Hpend.
    unfold invocations, marker_queries, pending.
    rewrite Htrace, Htimers, !count_app, Hsame.
    rewrite !(step_events_invocations _ _ _ _ Hev).
    rewrite (step_events_marker_queries _ _ _ Hev).
    destruct (origin s); simpl in *; repeat split; lia.
Qed.

End Counting.

(** ** Runs of the event loop *)

Lemma step_events_check cfg k evs o time filename :
  step_events cfg k evs ->
  In (EvInvoke o time filename) evs -> In (EvLoad cfg) evs.
Proof.
  intros [evs' Hq | o' time' filename' evs' Hq Hload] Hin.
  - exfalso. apply (proj1 (List.Forall_forall _ _) Hq) in Hin. exact Hin.
  - apply in_or_app. left. exact Hload.
Qed.

Lemma edits_cons l ls :
  edits (l :: ls) = ((if is_edit l then 1 else 0) + edits ls)%nat.
Proof. unfold edits. simpl. destruct (is_edit l); reflexivity. Qed.

Lemma edits_app ls1 ls2 : edits (ls1 ++ ls2) = (edits ls1 + edits ls2)%nat.
Proof. unfold edits. rewrite List.filter_app, List.length_app. reflexivity. Qed.

Lemma edits_of_edits es : edits (List.map edit_at es) = List.length es.
Proof.
  induction es as [|e es IH]; [reflexivity|].
  simpl. rewrite edits_cons, IH. reflexivity.
Qed.

Lemma edits_of_ticks n : edits (List.repeat Tick n) = 0%nat.
Proof.
  induction n as [|n IH]; [reflexivity|].
  simpl. rewrite edits_cons, IH. reflexivity.
Qed.

Section Loop.

Context {ParsedData Marker : Type}.
Variable yamlParser_load : string -> Exn + ParsedData.
Variable schema_validate : ParsedData -> bool.
Variable getModelMarkers : Z -> string -> Exn + list Marker.

Lemma exec_app ls1 ls2 w :
  exec yamlParser_load schema_validate getModelMarkers (ls1 ++ ls2) w
  = match exec yamlParser_load schema_validate getModelMarkers ls1 w with
    | Some w1 => exec yamlParser_load schema_validate getModelMarkers ls2 w1
    | None => None
    end.
Proof.
  revert w. induction ls1 as [|l ls1 IH]; intros w; [reflexivity|].
  simpl. destruct (step _ _ _ l w); [apply IH | reflexivity].
Qed.

Lemma run_inv ls w w' :
  Inv w ->
  exec yamlParser_load schema_validate getModelMarkers ls w = Some w' ->
  Inv w'.
Proof.
  revert w. induction ls as [|l ls IH]; intros w HI Hrun; simpl in Hrun.
  - injection Hrun as <-. exact HI.
  - destruct (step _ _ _ l w) as [w1|] eqn:Hstep; [|discriminate].
    apply (IH w1); [|exact Hrun]. eapply step_inv; eassumption.
Qed.

(** The bookkeeping of a run. *)
Lemma run_counts ls w w' :
  Inv w ->
  exec yamlParser_load schema_validate getModelMarkers ls w = Some w' ->
  invocations ChangeStart w' = (invocations ChangeStart w + edits ls)%nat
  /\ (invocations ChangePause w' + pending ChangePause w'
      = invocations ChangePause w + pending ChangePause w + edits ls)%nat
  /\ marker_queries w' = marker_queries w
  /\ (List.length (timers w') + (List.length ls - edits ls)
      = List.length (timers w) + 2 * edits ls)%nat.
Proof.
  revert w. induction ls as [|l ls IH]; intros w HI Hrun; simpl in Hrun.
  - injection Hrun as <-. unfold edits. simpl. repeat split; lia.
  - destruct (step _ _ _ l w) as [w1|] eqn:Hstep; [|discriminate].
    destruct (step_counts _ _ _ _ _ _ HI Hstep) as (Ha & Hb & Hc & Hd).
    destruct (IH w1 (step_inv _ _ _ _ _ _ HI Hstep) Hrun) as (Ha' & Hb' & Hc' & Hd').
    rewrite edits_cons.
    assert (Hle : (edits ls <= List.length ls)%nat).
    { unfold edits. apply List.filter_length_le. }
    cbn [List.length].
    destruct (is_edit l); repeat split; lia.
Qed.

Lemma pending_none w : timers w = [] -> pending ChangePause w = 0%nat.
Proof. intros H. unfold pending. rewrite H. reflexivity. Qed.

(** Every edit runs the leading check once, whatever came before. *)
Lemma leading_checks_of_a_run t0 h ls w :
  exec yamlParser_load schema_validate getModelMarkers ls (mount t0 h) = Some w ->
  invocations ChangeStart w = edits ls.
Proof.
  intros Hrun.
  destruct (run_counts _ _ _ (inv_mount t0 h) Hrun) as (Ha & _).
  exact Ha.
Qed.

(** Once every timer has fired, every edit has had its own trailing check. *)
Lemma trailing_checks_of_a_run t0 h ls w :
  exec yamlParser_load schema_validate getModelMarkers ls (mount t0 h) = Some w ->
  timers w = [] ->
  invocations ChangePause w = edits ls.
Proof.
  intros Hrun Hidle.
  destruct (run_counts _ _ _ (inv_mount t0 h) Hrun) as (_ & Hb & _).
  rewrite (pending_none w Hidle) in Hb.
  change (pending ChangePause (mount t0 h)) with 0%nat in Hb.
  change (invocations ChangePause (mount t0 h)) with 0%nat in Hb.
  lia.
Qed.

(** Edits whose times do not go back and lie in one 300ms window can all
    run, one after the other, before any timer is due. *)
Lemma burst_runs lo es w :
  Inv w ->
  nondecreasing (now w) (List.map edit_time es) = true ->
  in_window lo (List.map edit_time es) = true ->
  (forall tm, In tm (timers w) -> lo + 300 <= due tm) ->
  exists w',
    exec yamlParser_load schema_validate getModelMarkers
      (List.map edit_at es) w = Some w'.
Proof.
  revert w. induction es as [|[[t newConfig] filename] es IH];
    intros w HI Hsorted Hwin Hdue.
  - exists w. reflexivity.
  - cbn [List.map edit_time nondecreasing in_window List.forallb fst] in *.
    apply andb_prop in Hsorted. destruct Hsorted as [Hnow Hsorted].
    apply andb_prop in Hwin. destruct Hwin as [Ht Hwin].
    apply andb_prop in Ht. destruct Ht as [Hlo Hhi].
    apply Z.leb_le in Hnow, Hlo, Hhi.
    destruct (edit_enabled yamlParser_load schema_validate getModelMarkers
                t newConfig filename w Hnow) as [w1 Hstep].
    { intros tm Hin. specialize (Hdue tm Hin). lia. }
    unfold edit_at at 1. cbn [fst snd exec]. rewrite Hstep.
    apply IH.
    + eapply step_inv; eassumption.
    + destruct (edit_spec _ _ _ _ _ _ _ _ Hstep)
        as (_ & _ & s1 & s2 & v & evs & _ & _ & _ & _ & _ & _ & ->).
      exact Hsorted.
    + exact Hwin.
    + destruct (edit_spec _ _ _ _ _ _ _ _ Hstep)
        as (_ & _ & s1 & s2 & v & evs & _ & _ & _ & _ & _ & _ & ->).
      cbn [timers]. intros tm Hin. apply in_app_or in Hin.
      destruct Hin as [Hin|[<-|[<-|[]]]]; cbn [due]; [apply Hdue, Hin | lia | lia].
Qed.

(** When the editor stays silent, the pending timers fire one by one until
    none is left. *)
Lemma settle n w :
  Inv w ->
  List.length (timers w) = n ->
  exists w',
    exec yamlParser_load schema_validate getModelMarkers (List.repeat Tick n) w
    = Some w'
    /\ timers w' = [].
Proof.
  revert w. induction n as [|n IH]; intros w HI Hlen.
  - exists w. split; [reflexivity|].
    destruct (timers w); [reflexivity | discriminate].
  - destruct (tick_enabled yamlParser_load schema_validate getModelMarkers w)
      as [w1 Hstep].
    { intros Hnil. rewrite Hnil in Hlen. discriminate. }
    destruct (step_counts _ _ _ _ _ _ HI Hstep) as (_ & _ & _ & Hd).
    cbn [is_edit] in Hd.
    destruct (IH w1 (step_inv _ _ _ _ _ _ HI Hstep)) as (w' & Hrun & Hidle);
      [lia|].
    exists w'. split; [|exact Hidle].
    cbn [List.repeat exec]. rewrite Hstep. exact Hrun.
Qed.

End Loop.

(** ** The two cadences *)

(** C1, at a burst of ten edits in 50ms: with any parser, validator and
    editor, the ten edits can run one after the other from the mounted
    component, and the leading check has then been invoked ten times, once
    by every edit, not once for the burst.  Every edit makes its own
    debounced wrappers, so no wrapper ever sees a second call. *)
Theorem C1_burst_of_ten_runs_ten_leading_checks
    {ParsedData Marker : Type}
    (yamlParser_load : string -> Exn + ParsedData)
    (schema_validate : ParsedData -> bool)
    (getModelMarkers : Z -> string -> Exn + list Marker) (h : Hooks) :
  exists w,
    exec yamlParser_load schema_validate getModelMarkers
      Sample.burst (mount 0 h) = Some w
    /\ invocations ChangeStart w = 10%nat.
Proof.
  destruct (burst_runs yamlParser_load schema_validate getModelMarkers
              0 Sample.burst_edits (mount 0 h)) as [w Hrun].
  - apply inv_mount.
  - vm_compute. reflexivity.
  - vm_compute. reflexivity.
  - intros tm [].
  - exists w. split; [exact Hrun|].
    rewrite (leading_checks_of_a_run _ _ _ _ _ _ _ Hrun).
    vm_compute. reflexivity.
Qed.

(** C2, at three edits 100ms apart followed by silence: with any parser,
    validator and editor the run is possible, it ends with no timer
    pending, and the trailing check has then been invoked three times,
    once for every edit, not once after the pause. *)
Theorem C2_three_edits_run_three_trailing_checks
    {ParsedData Marker : Type}
    (yamlParser_load : string -> Exn + ParsedData)
    (schema_validate : ParsedData -> bool)
    (getModelMarkers : Z -> string -> Exn + list Marker) (h : Hooks) :
  exists w,
    exec yamlParser_load schema_validate getModelMarkers
      Sample.three_edits_then_pause (mount 0 h) = Some w
    /\ timers w = []
    /\ invocations ChangePause w = 3%nat.
Proof.
  destruct (burst_runs yamlParser_load schema_validate getModelMarkers
              0 Sample.three_edits (mount 0 h)) as [w1 Hrun1].
  { apply inv_mount. }
  { vm_compute. reflexivity. }
  { vm_compute. reflexivity. }
  { intros tm []. }
  pose proof (run_inv _ _ _ _ _ _ (inv_mount 0 h) Hrun1) as HI1.
  destruct (run_counts _ _ _ _ _ _ (inv_mount 0 h) Hrun1) as (_ & _ & _ & Hd).
  rewrite edits_of_edits in Hd. cbn in Hd.
  destruct (settle yamlParser_load schema_validate getModelMarkers 6 w1 HI1)
    as (w2 & Hrun2 & Hidle); [lia|].
  assert (Hrun : exec yamlParser_load schema_validate getModelMarkers
                   Sample.three_edits_then_pause (mount 0 h) = Some w2).
  { unfold Sample.three_edits_then_pause. rewrite exec_app, Hrun1. exact Hrun2. }
  exists w2. split; [exact Hrun|]. split; [exact Hidle|].
  rewrite (trailing_checks_of_a_run _ _ _ _ _ _ _ Hrun Hidle).
  unfold Sample.three_edits_then_pause.
  rewrite edits_app, edits_of_edits, edits_of_ticks. reflexivity.
Qed.

(** ** Markers *)

(** An attempt gets markers from the editor exactly when it is called with
    [useModelMarkers] set and the query is answered. *)
Lemma validationCheck_marker_queries
    {ParsedData Marker : Type}
    (yamlParser_load : string -> Exn + ParsedData)
    (schema_validate : ParsedData -> bool)
    (getModelMarkers : Z -> string -> Exn + list Marker) filename options w :
  marker_queries
    (world_of (validationCheck yamlParser_load schema_validate
                 getModelMarkers filename options w))
  = (marker_queries w
     + (if wants_markers options
        then match getModelMarkers (now w) filename with
             | inl _ => 0
             | inr _ => 1
             end
        else 0))%nat.
Proof.
  unfold validationCheck, bind.
  destruct (wants_markers options).
  - unfold query_markers, log, modify, gets, throw, bind. simpl.
    destruct (getModelMarkers (now w) filename) as [e|[|m ms]]; simpl.
    + lia.
    + unfold try_catch, bind, gets, load, log, modify, bind. simpl.
      destruct (yamlParser_load (configRef w)); simpl;
        unfold marker_queries; simpl; rewrite !count_cons; simpl; lia.
    + unfold marker_queries. simpl. rewrite !count_cons. simpl. lia.
  - unfold ret. simpl.
    unfold try_catch, bind, gets, load, log, modify, bind. simpl.
    destruct (yamlParser_load (configRef w)); simpl;
      unfold marker_queries; simpl; rewrite !count_cons; simpl; lia.
Qed.

(** [handleConfigChange] calls both debounced wrappers with the file name
    alone, so in no run of the event loop is the editor asked for markers. *)
Lemma no_marker_query_in_a_run
    {ParsedData Marker : Type}
    (yamlParser_load : string -> Exn + ParsedData)
    (schema_validate : ParsedData -> bool)
    (getModelMarkers : Z -> string -> Exn + list Marker) t0 h ls w :
  exec yamlParser_load schema_validate getModelMarkers ls (mount t0 h) = Some w ->
  marker_queries w = 0%nat.
Proof.
  intros Hrun.
  destruct (run_counts _ _ _ _ _ _ (inv_mount t0 h) Hrun) as (_ & _ & Hc & _).
  exact Hc.
Qed.

(** C3, at one edit followed by silence, in an editor that has flagged the
    file: both timers of the edit fire, the trailing check has run once, and
    no check has asked the editor for markers; the leading and the trailing
    check both went on to parse the text. *)
Theorem C3_trailing_check_asks_for_no_markers :
  exists w,
    Sample.run Sample.flagged Sample.one_edit_then_pause = Some w
    /\ timers w = []
    /\ invocations ChangePause w = 1%nat
    /\ marker_queries w = 0%nat
    /\ parse_calls w = 2%nat.
Proof.
  eexists. split; [vm_compute; reflexivity|].
  repeat split; vm_compute; reflexivity.
Qed.

(** ** The text a check validates *)

Section TimerChecks.

Context {ParsedData Marker : Type}.
Variable yamlParser_load : string -> Exn + ParsedData.
Variable schema_validate : ParsedData -> bool.
Variable getModelMarkers : Z -> string -> Exn + list Marker.

(** A wrapper's call of [validationCheck] without options: the invocation,
    then an attempt that parses the text [configRef] holds now. *)
Lemma func_apply_invokes o time filename w :
  exists v ms evs,
    func_apply yamlParser_load schema_validate getModelMarkers o time
      (Some (filename, None)) w
    = Return tt (set_trace ((evs ++ [EvInvoke o time filename]) ++ trace w)
                   (set_microtasks (microtasks w ++ ms) (set_configValid v w)))
    /\ quiet (configRef w) evs
    /\ In (EvLoad (configRef w)) evs.
Proof.
  unfold func_apply, bind, log, modify.
  destruct (validationCheck_quiet yamlParser_load schema_validate
              getModelMarkers filename None
              (set_trace (EvInvoke o time filename :: trace w) w) eq_refl)
    as (v & ms & evs & Heq & Hq & Hload).
  rewrite Heq. exists v, ms, evs. split; [|split; assumption].
  unfold set_trace, set_microtasks, set_configValid. simpl.
  rewrite <- !app_assoc. reflexivity.
Qed.

(** The timer that fires next belongs to a closure of
    [checkValidationOnChangePause]: the task invokes [validationCheck] at
    the time the timer is due, with the file name the closure recorded when
    it was called, and the attempt parses the text [configRef] holds now. *)
Lemma tick_fires_the_trailing_check w w' tm s :
  Inv w ->
  earliest (timers w) = Some tm ->
  heap w !! target tm = Some s ->
  origin s = ChangePause ->
  step yamlParser_load schema_validate getModelMarkers Tick w = Some w' ->
  exists filename evs,
    lastArgs s = Some (filename, None)
    /\ trace w' = (evs ++ [EvInvoke ChangePause (due tm) filename]) ++ trace w
    /\ In (EvLoad (configRef w)) evs.
Proof.
  intros HI Hfirst Hs Ho Hstep. unfold step in Hstep. rewrite Hfirst in Hstep.
  injection Hstep as <-.
  destruct (earliest_spec _ _ Hfirst) as [Hin _].
  pose proof (proj1 (List.Forall_forall _ _) (inv_timers w HI) tm Hin)
    as (_ & Hnow & s0 & Hs0 & Hcall & Hargs).
  rewrite Hs in Hs0. injection Hs0 as <-.
  assert (Hkind : is_start s \/ is_pause s).
  { apply (proj1 (List.Forall_forall _ _) (inv_heap w HI) s).
    apply list_elem_of_In. eapply list_elem_of_lookup_2. exact Hs. }
  destruct Hkind as [(Hstart & _) | (_ & Hw & _ & _ & _ & Ht & Ha)];
    [congruence|].
  destruct (lastArgs s) as [[filename options]|] eqn:Hlast;
    [|specialize (Hargs Ho); discriminate].
  specialize (Ha _ eq_refl). simpl in Ha. subst options.
  rewrite (Z.max_r _ _ Hnow).
  set (w1 := remove_timer (tid tm) (set_now (due tm) w)).
  assert (Hs1 : heap w1 !! target tm = Some s) by exact Hs.
  assert (Hfire : shouldInvoke s (now w1) = true).
  { unfold shouldInvoke. rewrite Hcall. simpl.
    replace (due tm - (due tm - wait s)) with (wait s) by lia.
    rewrite Z.leb_refl. reflexivity. }
  pose proof (timerExpired_hit yamlParser_load schema_validate getModelMarkers
                _ _ _ Hs1 Hfire) as Hexp.
  rewrite (trailingEdge_hit yamlParser_load schema_validate getModelMarkers
             _ _ _ _ Hs1) in Hexp.
  rewrite Ht, Hlast, Ho in Hexp. cbn [andb is_some] in Hexp.
  destruct (func_apply_invokes ChangePause (now w1) filename
              (set_heap
                 (<[target tm := set_lastInvokeTime (now w1)
                                   (set_lastArgs None (set_timerId None s))]>
                    (heap w1)) w1))
    as (v1 & ms & evs1 & Heq1 & _ & Hload1).
  pose proof (eq_trans Hexp Heq1) as Hret.
  destruct (task_returns (configRef w) _ _ _ Hret) as (v & evs & Heq & _).
  exists filename, (evs ++ evs1). split; [reflexivity|]. split.
  - rewrite Heq. unfold w1, remove_timer. simpl.
    rewrite <- !app_assoc. reflexivity.
  - apply in_or_app. right. exact Hload1.
Qed.

End TimerChecks.

(** C6: in every world a run can reach, whatever the event loop runs next
    extends the trace by events in which every text handed to the parser is
    the text [configRef] holds when the task ends; a timer task leaves
    [configRef] alone and an edit task sets it to the new text; and a task
    that invokes [validationCheck] parses that very text.  The task of an
    edit does invoke the leading check, so it parses the new text, stored
    before the wrappers are called.  The task of a timer of
    [checkValidationOnChangePause] does invoke the trailing check, at the
    time the timer is due and with the file name recorded when the timer
    was armed, and it parses the text [configRef] holds when it fires: the
    text of the latest edit, not the text of the edit that armed the
    timer. *)
Theorem C6_checks_read_the_current_text
    {ParsedData Marker : Type}
    (yamlParser_load : string -> Exn + ParsedData)
    (schema_validate : ParsedData -> bool)
    (getModelMarkers : Z -> string -> Exn + list Marker)
    t0 h ls w l w' :
  exec yamlParser_load schema_validate getModelMarkers ls (mount t0 h) = Some w ->
  step yamlParser_load schema_validate getModelMarkers l w = Some w' ->
  exists evs,
    trace w' = evs ++ trace w
    /\ configRef w' = match l with
                      | Edit _ newConfig _ => newConfig
                      | Tick => configRef w
                      end
    /\ Forall (fun e => forall text, e = EvLoad text -> text = configRef w') evs
    /\ (forall o time filename,
          In (EvInvoke o time filename) evs -> In (EvLoad (configRef w')) evs)
    /\ (is_edit l = true ->
        exists time filename,
          In (EvInvoke ChangeStart time filename) evs
          /\ In (EvLoad (configRef w')) evs)
    /\ (forall tm s,
          l = Tick ->
          earliest (timers w) = Some tm ->
          heap w !! target tm = Some s ->
          origin s = ChangePause ->
          exists filename,
            lastArgs s = Some (filename, None)
            /\ In (EvInvoke ChangePause (due tm) filename) evs
            /\ In (EvLoad (configRef w)) evs).
Proof.
  intros Hrun Hstep.
  pose proof (run_inv _ _ _ _ _ _ (inv_mount t0 h) Hrun) as HI.
  destruct l as [t newConfig filename|].
  - destruct (edit_spec _ _ _ _ _ _ _ _ Hstep)
      as (_ & _ & s1 & s2 & v & evs & _ & _ & _ & _ & _ & Hev & ->).
    exists evs. cbn [trace configRef].
    split; [reflexivity|]. split; [reflexivity|].
    split; [exact (step_events_loads _ _ _ Hev)|].
    split; [intros o time fname; exact (step_events_check _ _ _ _ _ _ Hev)|].
    split; [|discriminate].
    intros _. inversion Hev; subst.
    eexists _, _. split.
    + apply in_or_app. right. left. reflexivity.
    + apply in_or_app. left. assumption.
  - destruct (tick_spec _ _ _ _ _ HI Hstep)
      as (tm0 & s0 & s' & v & evs & _ & _ & _ & _ & _ & Hev & Hw').
    exists evs.
    assert (Htrace : trace w' = evs ++ trace w) by (rewrite Hw'; reflexivity).
    assert (Hcfg : configRef w' = configRef w) by (rewrite Hw'; reflexivity).
    rewrite Hcfg.
    split; [exact Htrace|]. split; [reflexivity|].
    split; [exact (step_events_loads _ _ _ Hev)|].
    split; [intros o time fname; exact (step_events_check _ _ _ _ _ _ Hev)|].
    split; [discriminate|].
    intros tm s _ Hfirst Hs Ho.
    destruct (tick_fires_the_trailing_check _ _ _ _ _ _ _ HI Hfirst Hs Ho Hstep)
      as (filename & evs1 & Hlast & Htrace1 & Hload1).
    rewrite Htrace in Htrace1. apply app_inv_tail in Htrace1. subst evs.
    exists filename. split; [exact Hlast|]. split.
    + apply in_or_app. right. left. reflexivity.
    + apply in_or_app. left. exact Hload1.
Qed.

(** C6 at a sample run: a typo is typed at 0 and corrected at 100; the two
    timers due at 300 and 400 have fired, and the timer that fires next,
    due at 500, was armed by the first edit, when the text was the typo.
    The trailing check it fires at 500 parses the corrected text. *)
Lemma C6_checks_read_the_current_text_witness :
  exists w w',
    Sample.run Sample.clean Sample.second_edit_before_first_timer = Some w
    /\ step Sample.load Sample.validate Sample.clean Tick w = Some w'
    /\ exists evs,
        trace w' = evs ++ trace w
        /\ configRef w' = "route: {}"
        /\ In (EvInvoke ChangePause 500 Sample.file) evs
        /\ In (EvLoad "route: {}") evs
        /\ Forall (fun e => forall text, e = EvLoad text -> text = "route: {}") evs.
Proof.
  eexists. eexists.
  split; [vm_compute; reflexivity|]. split; [vm_compute; reflexivity|].
  match goal with
  | |- exists evs, trace ?after = evs ++ trace ?before /\ _ =>
      destruct (C6_checks_read_the_current_text
                  Sample.load Sample.validate Sample.clean
                  0 Sample.the_hooks Sample.second_edit_before_first_timer
                  before Tick after
                  ltac:(vm_compute; reflexivity) ltac:(vm_compute; reflexivity))
        as (evs & Htrace & Hcfg & Hloads & _ & _ & Htimer);
      destruct (Htimer {| tid := 1; due := 500; target := 1 |}
                  {| origin := ChangePause; wait := 500; leading := false;
                     maxing := true; maxWait := 5000; trailing := true;
                     lastArgs := Some (Sample.file, None); timerId := Some 1%nat;
                     lastCallTime := Some 0; lastInvokeTime := 0 |}
                  eq_refl ltac:(vm_compute; reflexivity)
                  ltac:(vm_compute; reflexivity) eq_refl)
        as (filename & Hlast & Hinvoke & Hload)
  end.
  injection Hlast as <-.
  exists evs. split; [exact Htrace|]. split; [exact Hcfg|].
  split; [exact Hinvoke|]. split; [exact Hload | exact Hloads].
Defined.

(** * Further properties *)

(** ** One attempt, in full *)

Section AttemptInFull.

Context {ParsedData Marker : Type}.
Variable yamlParser_load : string -> Exn + ParsedData.
Variable schema_validate : ParsedData -> bool.
Variable getModelMarkers : Z -> string -> Exn + list Marker.

Lemma validationCheck_checked filename options w :
  wants_markers options = false ->
  validationCheck yamlParser_load schema_validate getModelMarkers
    filename options w
  = Return tt (checked yamlParser_load schema_validate w).
Proof.
  intros Hopt. unfold validationCheck, bind. rewrite Hopt. unfold ret. simpl.
  unfold try_catch, bind, gets, load, log, modify, bind, checked. simpl.
  destruct (yamlParser_load (configRef w)); reflexivity.
Qed.

Lemma validationCheck_flagged filename options w m ms :
  wants_markers options = true ->
  getModelMarkers (now w) filename = inr (m :: ms) ->
  validationCheck yamlParser_load schema_validate getModelMarkers
    filename options w
  = Return tt
      (set_configValid (Some false)
         (set_trace (EvSetConfigValid false :: EvGetModelMarkers filename
                       :: trace w) w)).
Proof.
  intros Hopt Hm. unfold validationCheck, bind. rewrite Hopt.
  unfold query_markers, log, modify, gets, bind. simpl. rewrite Hm. reflexivity.
Qed.

Lemma validationCheck_unflagged filename options w :
  wants_markers options = true ->
  getModelMarkers (now w) filename = inr [] ->
  validationCheck yamlParser_load schema_validate getModelMarkers
    filename options w
  = Return tt
      (checked yamlParser_load schema_validate
         (set_trace (EvGetModelMarkers filename :: trace w) w)).
Proof.
  intros Hopt Hm. unfold validationCheck, bind. rewrite Hopt.
  unfold query_markers, log, modify, gets, bind. simpl. rewrite Hm. simpl.
  unfold try_catch, bind, gets, load, log, modify, bind, checked. simpl.
  destruct (yamlParser_load (configRef w)); reflexivity.
Qed.

(** The marker query stands before the [try]: what it throws leaves the
    attempt, with nothing done. *)
Lemma validationCheck_rejected filename options w e :
  wants_markers options = true ->
  getModelMarkers (now w) filename = inl e ->
  validationCheck yamlParser_load schema_validate getModelMarkers
    filename options w
  = Throw e w.
Proof.
  intros Hopt Hm. unfold validationCheck, bind. rewrite Hopt.
  unfold query_markers, gets, throw, bind. simpl. rewrite Hm. reflexivity.
Qed.

End AttemptInFull.

Section AttemptOutcomes.

Context {ParsedData Marker : Type}.
Variable yamlParser_load : string -> Exn + ParsedData.
Variable schema_validate : ParsedData -> bool.
Variable getModelMarkers : Z -> string -> Exn + list Marker.

(** X1: an attempt on a text that parses, with no marker in its way (the
    markers are not asked for, or the query is answered with none), calls
    the parser once and the validator once, does not touch the verdict
    itself and adds one reaction with the validator's answer to the queue.
    Whenever that reaction runs, in whatever world, it stores that answer
    as the verdict. *)
Theorem attempt_on_a_text_that_parses filename options w parsed :
  wants_markers options = false \/ getModelMarkers (now w) filename = inr [] ->
  yamlParser_load (configRef w) = inr parsed ->
  (exists w',
      validationCheck yamlParser_load schema_validate getModelMarkers
        filename options w = Return tt w'
      /\ configValid w' = configValid w
      /\ microtasks w' = microtasks w
                         ++ [ReactSetConfigValid (schema_validate parsed)]
      /\ parse_calls w' = S (parse_calls w)
      /\ validate_calls w' = S (validate_calls w))
  /\ forall later,
       exists w'',
         drain [ReactSetConfigValid (schema_validate parsed)] later
         = Return tt w''
         /\ configValid w'' = Some (schema_validate parsed)
         /\ trace w'' = EvSetConfigValid (schema_validate parsed) :: trace later.
Proof.
  intros Hclear Hparse.
  assert (Hrun : exists w0,
             validationCheck yamlParser_load schema_validate getModelMarkers
               filename options w
             = Return tt (checked yamlParser_load schema_validate w0)
             /\ configRef w0 = configRef w /\ configValid w0 = configValid w
             /\ microtasks w0 = microtasks w
             /\ parse_calls w0 = parse_calls w
             /\ validate_calls w0 = validate_calls w).
  { destruct (wants_markers options) eqn:Hopt.
    - destruct Hclear as [Hno|Hempty]; [discriminate|].
      eexists. split; [apply validationCheck_unflagged; assumption|].
      unfold parse_calls, validate_calls. simpl. rewrite !count_cons. auto.
    - exists w. split; [apply validationCheck_checked; assumption | auto]. }
  destruct Hrun as (w0 & Heq & Hcfg & Hv & Hms & Hp & Hvc).
  assert (Hchecked :
            checked yamlParser_load schema_validate w0
            = set_microtasks
                (microtasks w0 ++ [ReactSetConfigValid (schema_validate parsed)])
                (set_trace (EvValidate :: EvLoad (configRef w0) :: trace w0) w0)).
  { unfold checked. rewrite Hcfg, Hparse. reflexivity. }
  split.
  - eexists. split; [exact Heq|]. rewrite Hchecked.
    unfold parse_calls, validate_calls in *. simpl.
    rewrite !count_cons, Hms, Hv, Hp, Hvc. simpl. auto.
  - intros later. eexists. split; [reflexivity|]. split; reflexivity.
Qed.

(** X2: whatever the file name, the options and the text, an attempt ends
    in one of two ways.  Called with [useModelMarkers] set on a file name
    the marker query rejects, it throws what the query threw, out of
    [validationCheck] and with nothing done: the query stands before the
    [try].  Otherwise it returns normally; it calls the parser at most once,
    calls the validator at most once and only on data the parser returned,
    never stores a verdict other than [false] itself, and touches neither
    [configRef] nor the closures, the timers or the dispatched requests. *)
Theorem attempt_returns_unless_the_marker_query_throws filename options w :
  (exists e,
      wants_markers options = true
      /\ getModelMarkers (now w) filename = inl e
      /\ validationCheck yamlParser_load schema_validate getModelMarkers
           filename options w = Throw e w)
  \/ (exists w',
        (wants_markers options = false
         \/ exists markers, getModelMarkers (now w) filename = inr markers)
        /\ validationCheck yamlParser_load schema_validate getModelMarkers
             filename options w = Return tt w'
        /\ (parse_calls w' = parse_calls w \/ parse_calls w' = S (parse_calls w))
        /\ (validate_calls w' = validate_calls w
            \/ (validate_calls w' = S (validate_calls w)
                /\ parse_calls w' = S (parse_calls w)
                /\ exists parsed, yamlParser_load (configRef w) = inr parsed))
        /\ (configValid w' = configValid w \/ configValid w' = Some false)
        /\ configRef w' = configRef w
        /\ heap w' = heap w
        /\ timers w' = timers w
        /\ dispatched w' = dispatched w).
Proof.
  assert (Hchecked : forall w0,
            let w' := checked yamlParser_load schema_validate w0 in
            (parse_calls w' = parse_calls w0 \/ parse_calls w' = S (parse_calls w0))
            /\ (validate_calls w' = validate_calls w0
                \/ (validate_calls w' = S (validate_calls w0)
                    /\ parse_calls w' = S (parse_calls w0)
                    /\ exists parsed, yamlParser_load (configRef w0) = inr parsed))
            /\ (configValid w' = configValid w0 \/ configValid w' = Some false)
            /\ configRef w' = configRef w0
            /\ heap w' = heap w0
            /\ timers w' = timers w0
            /\ dispatched w' = dispatched w0).
  { intros w0. unfold checked.
    destruct (yamlParser_load (configRef w0)) as [e|parsed] eqn:Hparse;
      unfold parse_calls, validate_calls; simpl; rewrite !count_cons; simpl.
    - repeat split; auto.
    - split; [auto|]. split; [right; eauto|]. auto. }
  destruct (wants_markers options) eqn:Hopt.
  - destruct (getModelMarkers (now w) filename) as [e|[|m ms]] eqn:Hm.
    + left. exists e. split; [reflexivity|]. split; [reflexivity|].
      apply validationCheck_rejected; assumption.
    + right. eexists. split; [right; eauto|].
      split; [apply validationCheck_unflagged; assumption|].
      specialize (Hchecked (set_trace (EvGetModelMarkers filename :: trace w) w)).
      unfold parse_calls, validate_calls in *. simpl in Hchecked.
      rewrite !count_cons in Hchecked. simpl in Hchecked. exact Hchecked.
    + right. eexists. split; [right; eauto|].
      split; [eapply validationCheck_flagged; eassumption|].
      unfold parse_calls, validate_calls. simpl. rewrite !count_cons. simpl.
      repeat split; auto.
  - right. eexists. split; [left; reflexivity|].
    split; [apply validationCheck_checked; assumption|].
    apply Hchecked.
Qed.

End AttemptOutcomes.

(** X1 at a sample input: a text the sample schema accepts, checked with
    [useModelMarkers] set in an editor that has not flagged the file. *)
Lemma attempt_on_a_text_that_parses_witness :
  (exists w',
      validationCheck Sample.load Sample.validate Sample.clean
        Sample.file (Some {| useModelMarkers := true |})
        (mount 0 Sample.the_hooks) = Return tt w'
      /\ configValid w' = None
      /\ microtasks w' = [ReactSetConfigValid true]
      /\ parse_calls w' = 1%nat
      /\ validate_calls w' = 1%nat)
  /\ forall later,
       exists w'',
         drain [ReactSetConfigValid true] later = Return tt w''
         /\ configValid w'' = Some true
         /\ trace w'' = EvSetConfigValid true :: trace later.
Proof.
  apply (attempt_on_a_text_that_parses Sample.load Sample.validate Sample.clean
           Sample.file (Some {| useModelMarkers := true |})
           (mount 0 Sample.the_hooks) "route: {}").
  - right. reflexivity.
  - reflexivity.
Defined.

(** An attempt with [useModelMarkers] set, on a file name the editor's
    [Uri.parse] rejects: the exception leaves [validationCheck], and neither
    the parser is called nor a verdict stored. *)
Example attempt_on_a_rejected_file_name :
  validationCheck Sample.load Sample.validate Sample.rejecting
    "a b:c" (Some {| useModelMarkers := true |}) (mount 0 Sample.the_hooks)
  = Throw (OtherError "UriError") (mount 0 Sample.the_hooks).
Proof. reflexivity. Qed.

(** X3: an attempt called without [useModelMarkers] does the same whatever
    the editor would answer, and leaves no marker query in the trace.
    Called with the option set, it makes the query once, for the file it
    was given: when the query is answered, the trace records it once; when
    the query throws, the attempt ends there, with that exception and a
    trace left as it was. *)
Theorem markers_are_asked_only_on_request
    {ParsedData Marker : Type}
    (yamlParser_load : string -> Exn + ParsedData)
    (schema_validate : ParsedData -> bool)
    (getModelMarkers : Z -> string -> Exn + list Marker) filename options w :
  let attempt :=
    validationCheck yamlParser_load schema_validate getModelMarkers
      filename options w in
  if wants_markers options
  then match getModelMarkers (now w) filename with
       | inr markers =>
           marker_queries (world_of attempt) = S (marker_queries w)
           /\ exists evs,
               trace (world_of attempt) = evs ++ trace w
               /\ In (EvGetModelMarkers filename) evs
       | inl e =>
           attempt = Throw e w
       end
  else marker_queries (world_of attempt) = marker_queries w
       /\ forall other : Z -> string -> Exn + list Marker,
           validationCheck yamlParser_load schema_validate other
             filename options w
           = attempt.
Proof.
  intros attempt.
  pose proof (validationCheck_marker_queries yamlParser_load schema_validate
                getModelMarkers filename options w) as Hcount.
  fold attempt in Hcount. subst attempt.
  destruct (wants_markers options) eqn:Hopt.
  - destruct (getModelMarkers (now w) filename) as [e|[|m ms]] eqn:Hm.
    + apply validationCheck_rejected; assumption.
    + split; [lia|].
      rewrite (validationCheck_unflagged _ _ _ _ _ _ Hopt Hm).
      unfold checked. cbn [world_of configRef set_trace].
      destruct (yamlParser_load (configRef w)); cbn [trace set_trace
        set_configValid set_microtasks].
      * exists [EvSetConfigValid false; EvLoad (configRef w);
                EvGetModelMarkers filename].
        split; [reflexivity | simpl; auto].
      * exists [EvValidate; EvLoad (configRef w); EvGetModelMarkers filename].
        split; [reflexivity | simpl; auto].
    + split; [lia|].
      rewrite (validationCheck_flagged _ _ _ _ _ _ _ _ Hopt Hm).
      exists [EvSetConfigValid false; EvGetModelMarkers filename].
      split; [reflexivity | simpl; auto].
  - split; [lia|]. intros other.
    rewrite (validationCheck_checked _ _ other _ _ _ Hopt).
    rewrite (validationCheck_checked _ _ getModelMarkers _ _ _ Hopt).
    reflexivity.
Qed.

(** ** Properties kept by the closures *)

Lemma hoare_ret {A} (P : World -> Prop) (a : A) : hoare P (ret a) P.
Proof. intros w HP. exists a, w. split; [reflexivity | exact HP]. Qed.

Lemma hoare_bind {A B} (P Q R : World -> Prop) (m : M A) (k : A -> M B) :
  hoare P m Q -> (forall a, hoare Q (k a) R) -> hoare P (bind m k) R.
Proof.
  intros Hm Hk w HP. destruct (Hm w HP) as (a & w1 & Heq & HQ).
  destruct (Hk a w1 HQ) as (b & w2 & Heq2 & HR).
  exists b, w2. split; [|exact HR]. unfold bind. rewrite Heq. exact Heq2.
Qed.

Lemma hoare_gets {A} (P : World -> Prop) (f : World -> A) : hoare P (gets f) P.
Proof. intros w HP. exists (f w), w. split; [reflexivity | exact HP]. Qed.

Section Keeping.

Context {ParsedData Marker : Type}.
Variable yamlParser_load : string -> Exn + ParsedData.
Variable schema_validate : ParsedData -> bool.
Variable getModelMarkers : Z -> string -> Exn + list Marker.

Lemma checked_frame w :
  now (checked yamlParser_load schema_validate w) = now w
  /\ configRef (checked yamlParser_load schema_validate w) = configRef w
  /\ heap (checked yamlParser_load schema_validate w) = heap w
  /\ timers (checked yamlParser_load schema_validate w) = timers w
  /\ nextTimerId (checked yamlParser_load schema_validate w) = nextTimerId w
  /\ hooks (checked yamlParser_load schema_validate w) = hooks w
  /\ dispatched (checked yamlParser_load schema_validate w) = dispatched w.
Proof.
  unfold checked. destruct (yamlParser_load (configRef w)); simpl; auto 10.
Qed.

(** A property of the text, the verdict, the reactions and the trace that
    every attempt without options keeps. *)
Variable X : World -> Prop.

Hypothesis X_frame :
  forall w w',
    configRef w' = configRef w -> configValid w' = configValid w ->
    microtasks w' = microtasks w -> trace w' = trace w ->
    X w -> X w'.

Hypothesis X_attempt :
  forall o time filename w,
    X w ->
    X (checked yamlParser_load schema_validate
         (set_trace (EvInvoke o time filename :: trace w) w)).

Lemma hoare_with_closure d k :
  (forall s, no_options s -> hoare (good X) (k s) (good X)) ->
  hoare (good X) (with_closure d k) (good X).
Proof.
  intros Hk w HP. unfold with_closure.
  destruct (heap w !! d) as [s|] eqn:Hs.
  - apply Hk; [|exact HP]. destruct HP as [Hheap _].
    exact (Forall_lookup_1 _ _ _ _ Hheap Hs).
  - exists tt, w. split; [reflexivity | exact HP].
Qed.

Lemma hoare_update d f :
  (forall s, no_options s -> no_options (f s)) ->
  hoare (good X) (update d f) (good X).
Proof.
  intros Hf. unfold update. apply hoare_with_closure.
  intros s Hs w [Hheap HX]. eexists tt, _. split; [reflexivity|].
  split.
  - simpl. apply Forall_insert; [exact Hheap | apply Hf, Hs].
  - apply (X_frame w); [reflexivity .. | exact HX].
Qed.

Lemma hoare_setTimeout d delay :
  hoare (good X) (setTimeout d delay) (good X).
Proof.
  intros w [Hheap HX]. eexists _, _. split; [reflexivity|].
  split; [exact Hheap|]. apply (X_frame w); [reflexivity .. | exact HX].
Qed.

Lemma hoare_clearTimeout id : hoare (good X) (clearTimeout id) (good X).
Proof.
  intros w [Hheap HX]. eexists tt, _. split; [reflexivity|].
  split; [exact Hheap|]. apply (X_frame w); [reflexivity .. | exact HX].
Qed.

Lemma hoare_func_apply o time args :
  (forall a, args = Some a -> snd a = None) ->
  hoare (good X)
    (func_apply yamlParser_load schema_validate getModelMarkers o time args)
    (good X).
Proof.
  intros Hargs w [Hheap HX].
  assert (Hrun : forall filename,
            (log (EvInvoke o time filename) ;;
             validationCheck yamlParser_load schema_validate getModelMarkers
               filename None)%js w
            = Return tt
                (checked yamlParser_load schema_validate
                   (set_trace (EvInvoke o time filename :: trace w) w))).
  { intros filename. unfold bind, log, modify.
    apply validationCheck_checked. reflexivity. }
  assert (Hgood : forall filename,
            good X (checked yamlParser_load schema_validate
                      (set_trace (EvInvoke o time filename :: trace w) w))).
  { intros filename. split; [|apply X_attempt, HX].
    destruct (checked_frame (set_trace (EvInvoke o time filename :: trace w) w))
      as (_ & _ & -> & _). exact Hheap. }
  destruct args as [[filename options]|].
  - specialize (Hargs _ eq_refl). simpl in Hargs. subst options.
    eexists tt, _. split; [apply Hrun | apply Hgood].
  - eexists tt, _. split; [apply Hrun | apply Hgood].
Qed.

Lemma hoare_invokeFunc d time :
  hoare (good X)
    (invokeFunc yamlParser_load schema_validate getModelMarkers d time)
    (good X).
Proof.
  unfold invokeFunc. apply hoare_with_closure. intros s Hs.
  eapply hoare_bind.
  - apply hoare_update. intros s0 _ a. discriminate.
  - intros _. apply hoare_func_apply. exact Hs.
Qed.

Lemma hoare_leadingEdge d time :
  hoare (good X)
    (leadingEdge yamlParser_load schema_validate getModelMarkers d time)
    (good X).
Proof.
  unfold leadingEdge. eapply hoare_bind.
  - apply hoare_update. intros s Hs. exact Hs.
  - intros _. apply hoare_with_closure. intros s Hs.
    eapply hoare_bind; [apply hoare_setTimeout|]. intros id.
    eapply hoare_bind; [apply hoare_update; intros s0 Hs0; exact Hs0|].
    intros _. destruct (leading s); [apply hoare_invokeFunc | apply hoare_ret].
Qed.

Lemma hoare_trailingEdge d time :
  hoare (good X)
    (trailingEdge yamlParser_load schema_validate getModelMarkers d time)
    (good X).
Proof.
  unfold trailingEdge. eapply hoare_bind.
  - apply hoare_update. intros s Hs. exact Hs.
  - intros _. apply hoare_with_closure. intros s Hs.
    destruct (trailing s && is_some (lastArgs s)).
    + apply hoare_invokeFunc.
    + apply hoare_update. intros s0 _ a. discriminate.
Qed.

Lemma hoare_timerExpired d :
  hoare (good X)
    (timerExpired yamlParser_load schema_validate getModelMarkers d)
    (good X).
Proof.
  unfold timerExpired. eapply hoare_bind; [apply hoare_gets|]. intros time.
  apply hoare_with_closure. intros s Hs.
  destruct (shouldInvoke s time).
  - apply hoare_trailingEdge.
  - eapply hoare_bind; [apply hoare_setTimeout|]. intros id.
    apply hoare_update. intros s0 Hs0. exact Hs0.
Qed.

Lemma hoare_debounced d filename :
  hoare (good X)
    (debounced yamlParser_load schema_validate getModelMarkers d (filename, None))
    (good X).
Proof.
  unfold debounced. eapply hoare_bind; [apply hoare_gets|]. intros time.
  apply hoare_with_closure. intros s0 Hs0.
  eapply hoare_bind.
  - apply hoare_update. intros s _ a [= <-]. reflexivity.
  - intros _. apply hoare_with_closure. intros s Hs.
    destruct (timerId s) as [running|].
    + destruct (shouldInvoke s0 time && maxing s); [|apply hoare_ret].
      eapply hoare_bind; [apply hoare_clearTimeout|]. intros _.
      eapply hoare_bind; [apply hoare_setTimeout|]. intros id.
      eapply hoare_bind; [apply hoare_update; intros s1 Hs1; exact Hs1|].
      intros _. apply hoare_invokeFunc.
    + destruct (shouldInvoke s0 time); [apply hoare_leadingEdge|].
      eapply hoare_bind; [apply hoare_setTimeout|]. intros id.
      apply hoare_update. intros s1 Hs1. exact Hs1.
Qed.

Lemma hoare_debounce o wait_ options :
  hoare (good X) (debounce o wait_ options) (good X).
Proof.
  intros w [Hheap HX]. eexists _, _. split; [reflexivity|].
  split.
  - simpl. apply Forall_app. split; [exact Hheap|].
    constructor; [|constructor]. intros a. discriminate.
  - apply (X_frame w); [reflexivity .. | exact HX].
Qed.

(** The whole of [handleConfigChange]: [X] only has to hold once the new
    text is stored. *)
Lemma hoare_handleConfigChange newConfig filename :
  hoare (fun w => Forall no_options (heap w) /\ X (set_configRef newConfig w))
    (handleConfigChange yamlParser_load schema_validate getModelMarkers
       newConfig filename)
    (good X).
Proof.
  unfold handleConfigChange.
  apply (hoare_bind _
           (fun w => Forall no_options (heap w) /\ X (set_configRef newConfig w))).
  { intros w [Hheap HX]. eexists _, _. split; [reflexivity|]. split.
    - simpl. apply Forall_app. split; [exact Hheap|].
      constructor; [|constructor]. intros a. discriminate.
    - apply (X_frame (set_configRef newConfig w)); [reflexivity .. | exact HX]. }
  intros d1.
  apply (hoare_bind _
           (fun w => Forall no_options (heap w) /\ X (set_configRef newConfig w))).
  { intros w [Hheap HX]. eexists _, _. split; [reflexivity|]. split.
    - simpl. apply Forall_app. split; [exact Hheap|].
      constructor; [|constructor]. intros a. discriminate.
    - apply (X_frame (set_configRef newConfig w)); [reflexivity .. | exact HX]. }
  intros d2.
  apply (hoare_bind _ (good X)).
  { intros w [Hheap HX]. eexists tt, _. split; [reflexivity|].
    split; [exact Hheap | exact HX]. }
  intros _.
  apply (hoare_bind _ (good X)); [apply hoare_debounced|].
  intros _. apply hoare_debounced.
Qed.

End Keeping.

(** ** Tasks *)

Section Tasks.

Context {ParsedData Marker : Type}.
Variable yamlParser_load : string -> Exn + ParsedData.
Variable schema_validate : ParsedData -> bool.
Variable getModelMarkers : Z -> string -> Exn + list Marker.

(** The reactions only call [setConfigValid]; the last one decides. *)
Lemma drain_spec ms w :
  exists v evs,
    drain ms w = Return tt (set_trace (evs ++ trace w) (set_configValid v w))
    /\ Forall (fun e => exists b, e = EvSetConfigValid b) evs
    /\ (ms = [] -> v = configValid w)
    /\ (forall b, ms <> [] ->
          (forall b', In (ReactSetConfigValid b') ms -> b' = b) -> v = Some b).
Proof.
  revert w. induction ms as [|[b0] ms IH]; intros w.
  - exists (configValid w), []. split; [destruct w; reflexivity|].
    split; [constructor|]. split; [reflexivity|]. intros b Hne. contradiction.
  - simpl. unfold bind, setConfigValid, bind, log, modify. simpl.
    destruct (IH (set_configValid (Some b0)
                    (set_trace (EvSetConfigValid b0 :: trace w) w)))
      as (v & evs & Heq & Hevs & Hnil & Hlast).
    rewrite Heq. exists v, (evs ++ [EvSetConfigValid b0]).
    split; [|split; [|split]].
    + unfold set_trace, set_configValid. simpl.
      rewrite <- app_assoc. reflexivity.
    + apply Forall_app. split; [exact Hevs|]. constructor; [eauto | constructor].
    + discriminate.
    + intros b _ Hall. destruct ms as [|m ms].
      * rewrite (Hnil eq_refl). simpl. f_equal. apply Hall. left. reflexivity.
      * apply Hlast; [discriminate|]. intros b' Hin. apply Hall. right. exact Hin.
Qed.

(** A task whose callback returns normally: the world the callback leaves,
    with the queue of reactions emptied into the verdict. *)
Lemma task_of_callback callback w w1 :
  callback w = Return tt w1 ->
  exists v evs,
    task callback w
    = set_trace (evs ++ trace w1) (set_configValid v (set_microtasks [] w1))
    /\ Forall (fun e => exists b, e = EvSetConfigValid b) evs
    /\ (microtasks w1 = [] -> v = configValid w1)
    /\ (forall b, microtasks w1 <> [] ->
          (forall b', In (ReactSetConfigValid b') (microtasks w1) -> b' = b) ->
          v = Some b).
Proof.
  intros Hcb. unfold task. rewrite Hcb. unfold run_microtasks.
  destruct (drain_spec (microtasks w1) (set_microtasks [] w1))
    as (v & evs & Heq & Hevs & Hnil & Hlast).
  rewrite Heq. exists v, evs. split; [reflexivity|]. auto.
Qed.

(** The two kinds of task of the event loop. *)
Lemma step_cases l w w' :
  step yamlParser_load schema_validate getModelMarkers l w = Some w' ->
  (exists t newConfig filename,
      l = Edit t newConfig filename
      /\ w' = task (handleConfigChange yamlParser_load schema_validate
                      getModelMarkers newConfig filename) (set_now t w))
  \/ (exists tm,
        l = Tick /\ In tm (timers w)
        /\ w' = task (timerExpired yamlParser_load schema_validate
                        getModelMarkers (target tm))
                  (remove_timer (tid tm) (set_now (Z.max (now w) (due tm)) w))).
Proof.
  destruct l as [t newConfig filename|]; unfold step.
  - destruct ((now w <=? t) && _); [|discriminate].
    intros [= <-]. left. eauto.
  - destruct (earliest (timers w)) as [tm|] eqn:Hfirst; [|discriminate].
    intros [= <-]. right. exists tm.
    destruct (earliest_spec _ _ Hfirst) as [Hin _]. auto.
Qed.

(** A property of the trace alone, kept by attempts and by reactions, holds
    after every task. *)
Lemma step_keeps (X : World -> Prop) l w w' :
  (forall w1 w2, trace w2 = trace w1 -> X w1 -> X w2) ->
  (forall o time filename w1,
      X w1 ->
      X (checked yamlParser_load schema_validate
           (set_trace (EvInvoke o time filename :: trace w1) w1))) ->
  (forall w1 w2 evs,
      Forall (fun e => exists b, e = EvSetConfigValid b) evs ->
      trace w2 = evs ++ trace w1 -> X w1 -> X w2) ->
  good X w ->
  step yamlParser_load schema_validate getModelMarkers l w = Some w' ->
  good X w'.
Proof.
  intros Xtrace Xattempt Xreact [Hheap HX] Hstep.
  assert (Xframe : forall w1 w2,
            configRef w2 = configRef w1 -> configValid w2 = configValid w1 ->
            microtasks w2 = microtasks w1 -> trace w2 = trace w1 ->
            X w1 -> X w2).
  { intros w1 w2 _ _ _ Htr. apply Xtrace, Htr. }
  assert (Hdone : forall callback w0,
            hoare (good X) callback (good X) -> good X w0 ->
            good X (task callback w0)).
  { intros callback w0 Hcb Hw0.
    destruct (Hcb w0 Hw0) as ([] & w1 & Heq & Hheap1 & HX1).
    destruct (task_of_callback _ _ _ Heq) as (v & evs & -> & Hevs & _).
    split; [exact Hheap1|].
    apply (Xreact w1 _ evs Hevs); [reflexivity | exact HX1]. }
  destruct (step_cases _ _ _ Hstep)
    as [(t & newConfig & filename & -> & ->) | (tm & -> & _ & ->)].
  - destruct (hoare_handleConfigChange yamlParser_load schema_validate
                getModelMarkers X Xframe Xattempt newConfig filename
                (set_now t w)) as ([] & w1 & Heq & Hheap1 & HX1).
    { split; [exact Hheap|]. apply (Xtrace w); [reflexivity | exact HX]. }
    destruct (task_of_callback _ _ _ Heq) as (v & evs & -> & Hevs & _).
    split; [exact Hheap1|].
    apply (Xreact w1 _ evs Hevs); [reflexivity | exact HX1].
  - apply Hdone.
    + apply hoare_timerExpired; assumption.
    + split; [exact Hheap|]. apply (Xtrace w); [reflexivity | exact HX].
Qed.

Lemma run_keeps (X : World -> Prop) ls w w' :
  (forall w1 w2, trace w2 = trace w1 -> X w1 -> X w2) ->
  (forall o time filename w1,
      X w1 ->
      X (checked yamlParser_load schema_validate
           (set_trace (EvInvoke o time filename :: trace w1) w1))) ->
  (forall w1 w2 evs,
      Forall (fun e => exists b, e = EvSetConfigValid b) evs ->
      trace w2 = evs ++ trace w1 -> X w1 -> X w2) ->
  good X w ->
  exec yamlParser_load schema_validate getModelMarkers ls w = Some w' ->
  good X w'.
Proof.
  intros Xtrace Xattempt Xreact. revert w.
  induction ls as [|l ls IH]; intros w Hw Hrun; simpl in Hrun.
  - injection Hrun as <-. exact Hw.
  - destruct (step _ _ _ l w) as [w1|] eqn:Hstep; [|discriminate].
    apply (IH w1); [|exact Hrun].
    eapply step_keeps; eassumption.
Qed.

End Tasks.

(** ** What holds after every task of a run *)

Lemma count_reactions p evs :
  (forall b, p (EvSetConfigValid b) = false) ->
  Forall (fun e => exists b, e = EvSetConfigValid b) evs ->
  count p evs = 0%nat.
Proof.
  intros Hp Hevs. induction Hevs as [|e evs [b ->] _ IH]; [reflexivity|].
  rewrite count_cons, Hp, IH. reflexivity.
Qed.

Lemma good_mount (X : World -> Prop) t0 h : X (mount t0 h) -> good X (mount t0 h).
Proof. intros HX. split; [constructor | exact HX]. Qed.

Lemma first_task_is_an_edit
    {ParsedData Marker : Type}
    (yamlParser_load : string -> Exn + ParsedData)
    (schema_validate : ParsedData -> bool)
    (getModelMarkers : Z -> string -> Exn + list Marker) t0 h ls w :
  exec yamlParser_load schema_validate getModelMarkers (Tick :: ls) (mount t0 h)
  = Some w -> False.
Proof. simpl. discriminate. Qed.

Section AfterEveryTask.

Context {ParsedData Marker : Type}.
Variable yamlParser_load : string -> Exn + ParsedData.
Variable schema_validate : ParsedData -> bool.
Variable getModelMarkers : Z -> string -> Exn + list Marker.

(** X5: in no run does an exception escape a task: whatever the texts
    typed, the parser's failures are all caught inside the attempts and the
    event loop never has an uncaught error to report. *)
Theorem no_task_ends_in_an_uncaught_error t0 h ls w :
  exec yamlParser_load schema_validate getModelMarkers ls (mount t0 h) = Some w ->
  forall e, ~ In (EvUncaught e) (trace w).
Proof.
  intros Hrun.
  assert (Hcount : good (fun w => count is_uncaught (trace w) = 0%nat) w).
  { eapply (run_keeps yamlParser_load schema_validate getModelMarkers
              (fun w => count is_uncaught (trace w) = 0%nat));
      [| | | | exact Hrun].
    - intros w1 w2 -> H. exact H.
    - intros o time filename w1 H. unfold checked.
      destruct (yamlParser_load _); simpl; rewrite !count_cons, H; reflexivity.
    - intros w1 w2 evs Hevs -> H.
      rewrite count_app, H, (count_reactions _ _ (fun _ => eq_refl) Hevs).
      reflexivity.
    - apply good_mount. reflexivity. }
  destruct Hcount as [_ Hcount]. intros e Hin.
  unfold count in Hcount.
  assert (Hfiltered : In (EvUncaught e) (List.filter is_uncaught (trace w))).
  { apply List.filter_In. split; [exact Hin | reflexivity]. }
  destruct (List.filter is_uncaught (trace w)); [contradiction | discriminate].
Qed.

(** X8: in every run the parser has been called exactly once per invocation
    of [validationCheck] by a debounced wrapper, and the validator at most as
    often as the parser; once no timer is pending the parser has been called
    exactly twice per edit. *)
Theorem every_edit_is_parsed_twice t0 h ls w :
  exec yamlParser_load schema_validate getModelMarkers ls (mount t0 h) = Some w ->
  parse_calls w = (invocations ChangeStart w + invocations ChangePause w)%nat
  /\ (validate_calls w <= parse_calls w)%nat
  /\ (timers w = [] -> parse_calls w = (2 * edits ls)%nat).
Proof.
  intros Hrun.
  assert (Hbal : good balanced w).
  { eapply (run_keeps yamlParser_load schema_validate getModelMarkers balanced);
      [| | | | exact Hrun].
    - intros w1 w2 Htr. unfold balanced, parse_calls, validate_calls, invocations.
      rewrite Htr. auto.
    - intros o time filename w1.
      unfold balanced, parse_calls, validate_calls, invocations, checked.
      intros [Hp Hv].
      destruct (yamlParser_load _); destruct o;
        cbn [trace set_trace set_microtasks set_configValid];
        rewrite !count_cons; cbn [is_load is_validate is_invoke Origin_eqb];
        lia.
    - intros w1 w2 evs Hevs Htr.
      unfold balanced, parse_calls, validate_calls, invocations.
      rewrite Htr, !count_app.
      rewrite !(count_reactions _ _ (fun _ => eq_refl) Hevs). auto.
    - apply good_mount. split; [reflexivity|]. unfold validate_calls, parse_calls.
      simpl. unfold count. simpl. lia. }
  destruct Hbal as [_ [Hp Hv]]. split; [exact Hp|]. split; [exact Hv|].
  intros Hidle.
  rewrite Hp, (leading_checks_of_a_run _ _ _ _ _ _ _ Hrun),
    (trailing_checks_of_a_run _ _ _ _ _ _ _ Hrun Hidle).
  lia.
Qed.

End AfterEveryTask.

(** X5 at a sample run: the text typed starts with a tab and does not
    parse, neither at the edit nor when the trailing check fires. *)
Lemma no_task_ends_in_an_uncaught_error_witness :
  exists w,
    exec Sample.load Sample.validate Sample.clean
      [Edit 0 (String "009"%char "route: {}") Sample.file; Tick; Tick]
      (mount 0 Sample.the_hooks) = Some w
    /\ configValid w = Some false
    /\ forall e, ~ In (EvUncaught e) (trace w).
Proof.
  eexists. split; [vm_compute; reflexivity|]. split; [vm_compute; reflexivity|].
  match goal with
  | |- forall e, ~ In (EvUncaught e) (trace ?reached) =>
      apply (no_task_ends_in_an_uncaught_error
               Sample.load Sample.validate Sample.clean 0 Sample.the_hooks
               [Edit 0 (String "009"%char "route: {}") Sample.file; Tick; Tick]
               reached)
  end.
  vm_compute. reflexivity.
Defined.

(** X8 at a sample run: three edits and their six timers, six parses. *)
Lemma every_edit_is_parsed_twice_witness :
  exists w,
    Sample.run Sample.clean Sample.three_edits_then_pause = Some w
    /\ parse_calls w
       = (invocations ChangeStart w + invocations ChangePause w)%nat
    /\ (validate_calls w <= parse_calls w)%nat
    /\ (timers w = [] ->
        parse_calls w = (2 * edits Sample.three_edits_then_pause)%nat).
Proof.
  eexists. split; [vm_compute; reflexivity|].
  match goal with
  | |- parse_calls ?reached = _ /\ _ =>
      apply (every_edit_is_parsed_twice
               Sample.load Sample.validate Sample.clean 0 Sample.the_hooks
               Sample.three_edits_then_pause reached)
  end.
  vm_compute. reflexivity.
Defined.

(** ** Edits, silence and publishing *)

Section EditsAndSilence.

Context {ParsedData Marker : Type}.
Variable yamlParser_load : string -> Exn + ParsedData.
Variable schema_validate : ParsedData -> bool.
Variable getModelMarkers : Z -> string -> Exn + list Marker.

(** X4: in any world, with whatever timers pending, [handleConfigChange]
    returns normally; it stores the new text, makes two closures and arms
    two timers, 300ms and 500ms from now, behind the pending ones, which it
    neither cancels nor postpones; it invokes the leading check once, on the
    new text, and no trailing check, asks for no markers and dispatches
    nothing. *)
Theorem handleConfigChange_adds_and_never_cancels newConfig filename w :
  exists w' s1 s2,
    handleConfigChange yamlParser_load schema_validate getModelMarkers
      newConfig filename w = Return tt w'
    /\ configRef w' = newConfig
    /\ now w' = now w
    /\ heap w' = heap w ++ [s1; s2]
    /\ timers w'
       = timers w
         ++ [{| tid := nextTimerId w; due := now w + 300;
                target := List.length (heap w) |};
             {| tid := S (nextTimerId w); due := now w + 500;
                target := S (List.length (heap w)) |}]
    /\ invocations ChangeStart w' = S (invocations ChangeStart w)
    /\ invocations ChangePause w' = invocations ChangePause w
    /\ marker_queries w' = marker_queries w
    /\ (exists evs, trace w' = evs ++ trace w /\ In (EvLoad newConfig) evs)
    /\ dispatched w' = dispatched w.
Proof.
  destruct (handleConfigChange_runs yamlParser_load schema_validate
              getModelMarkers newConfig filename w)
    as (s1 & s2 & v & ms & evs & _ & _ & _ & _ & _ & Hev & Heq).
  eexists _, s1, s2. split; [exact Heq|].
  unfold invocations, marker_queries. cbn [configRef now heap timers trace dispatched].
  rewrite !count_app, !(step_events_invocations _ _ _ _ Hev),
    (step_events_marker_queries _ _ _ Hev).
  repeat (split; [reflexivity|]). split.
  - exists evs. split; [reflexivity|]. inversion Hev; subst.
    apply in_or_app. left. assumption.
  - reflexivity.
Qed.

Lemma run_text ls w w' :
  Inv w ->
  exec yamlParser_load schema_validate getModelMarkers ls w = Some w' ->
  configRef w' = last_text (configRef w) ls
  /\ hooks w' = hooks w
  /\ dispatched w' = dispatched w.
Proof.
  revert w. induction ls as [|l ls IH]; intros w HI Hrun; cbn [exec] in Hrun.
  - injection Hrun as <-. auto.
  - destruct (step yamlParser_load schema_validate getModelMarkers l w)
      as [w1|] eqn:Hstep; [|discriminate].
    destruct (IH w1 (step_inv _ _ _ _ _ _ HI Hstep) Hrun) as (Hc & Hh & Hd).
    rewrite Hc, Hh, Hd. destruct l as [t newConfig filename|].
    + destruct (edit_spec _ _ _ _ _ _ _ _ Hstep)
        as (_ & _ & s1 & s2 & v & evs & _ & _ & _ & _ & _ & _ & ->).
      auto.
    + destruct (tick_spec _ _ _ _ _ HI Hstep)
        as (tm & s & s' & v & evs & _ & _ & _ & _ & _ & _ & ->).
      auto.
Qed.

(** X6: at any point of any run [configRef] holds the text of the latest
    edit (the text loaded at mount before the first edit): timer tasks never
    change it.  The event loop dispatches nothing by itself, and publishing
    for a named tenant sends exactly that text. *)
Theorem publish_sends_the_latest_text t0 h ls w :
  exec yamlParser_load schema_validate getModelMarkers ls (mount t0 h) = Some w ->
  configRef w = last_text (configRef (mount t0 h)) ls
  /\ dispatched w = []
  /\ (forall t, tenant h = Some t -> truthy (name t) = true ->
        exists request,
          handleSave w = Return tt (set_dispatched [request] w)
          /\ upd_tenantId request = name t
          /\ upd_config request = last_text (configRef (mount t0 h)) ls).
Proof.
  intros Hrun.
  destruct (run_text _ _ _ (inv_mount t0 h) Hrun) as (Hc & Hh & Hd).
  split; [exact Hc|]. split; [exact Hd|].
  intros t Ht Hn.
  assert (Ht' : tenant (hooks w) = Some t) by (rewrite Hh; exact Ht).
  eexists. split.
  - rewrite (handleSave_named w t Ht' Hn), Hd. reflexivity.
  - simpl. split; [reflexivity | exact Hc].
Qed.

Lemma run_due_bound ls w w' :
  Inv w ->
  (forall tm, In tm (timers w) -> due tm <= now w + 500) ->
  exec yamlParser_load schema_validate getModelMarkers ls w = Some w' ->
  forall tm, In tm (timers w') -> due tm <= now w' + 500.
Proof.
  revert w. induction ls as [|l ls IH]; intros w HI Hdue Hrun; cbn [exec] in Hrun.
  - injection Hrun as <-. exact Hdue.
  - destruct (step yamlParser_load schema_validate getModelMarkers l w)
      as [w1|] eqn:Hstep; [|discriminate].
    apply (IH w1 (step_inv _ _ _ _ _ _ HI Hstep)); [|exact Hrun].
    destruct l as [t newConfig filename|].
    + destruct (edit_spec _ _ _ _ _ _ _ _ Hstep)
        as (Hnow & _ & s1 & s2 & v & evs & _ & _ & _ & _ & _ & _ & ->).
      cbn [timers now]. intros tm Hin. apply in_app_or in Hin.
      destruct Hin as [Hin|[<-|[<-|[]]]]; cbn [due]; [|lia|lia].
      specialize (Hdue tm Hin). lia.
    + destruct (tick_spec _ _ _ _ _ HI Hstep)
        as (tm0 & s & s' & v & evs & Hin0 & _ & _ & _ & _ & _ & ->).
      destruct (proj1 (List.Forall_forall _ _) (inv_timers w HI) tm0 Hin0)
        as (_ & Hnow0 & _).
      cbn [timers now]. intros tm Hin. apply List.filter_In in Hin.
      destruct Hin as [Hin _]. specialize (Hdue tm Hin). lia.
Qed.

Lemma settle_within bound n w :
  Inv w ->
  now w <= bound ->
  (forall tm, In tm (timers w) -> due tm <= bound) ->
  List.length (timers w) = n ->
  exists w',
    exec yamlParser_load schema_validate getModelMarkers (List.repeat Tick n) w
    = Some w'
    /\ timers w' = []
    /\ now w <= now w' <= bound
    /\ configRef w' = configRef w.
Proof.
  revert w. induction n as [|n IH]; intros w HI Hnow Hdue Hlen.
  - exists w. split; [reflexivity|].
    split; [destruct (timers w); [reflexivity | discriminate]|].
    split; [lia | reflexivity].
  - destruct (tick_enabled yamlParser_load schema_validate getModelMarkers w)
      as [w1 Hstep].
    { intros Hnil. rewrite Hnil in Hlen. discriminate. }
    destruct (step_counts _ _ _ _ _ _ HI Hstep) as (_ & _ & _ & Hd).
    cbn [is_edit] in Hd.
    pose proof (step_inv _ _ _ _ _ _ HI Hstep) as HI1.
    destruct (tick_spec _ _ _ _ _ HI Hstep)
      as (tm0 & s & s' & v & evs & Hin0 & _ & _ & _ & _ & _ & Hw1).
    destruct (proj1 (List.Forall_forall _ _) (inv_timers w HI) tm0 Hin0)
      as (_ & Hnow0 & _).
    assert (Hnow1 : now w1 = due tm0) by (rewrite Hw1; reflexivity).
    assert (Hcfg1 : configRef w1 = configRef w) by (rewrite Hw1; reflexivity).
    assert (Hdue1 : forall tm, In tm (timers w1) -> due tm <= bound).
    { rewrite Hw1. cbn [timers]. intros tm Hin. apply List.filter_In in Hin.
      apply Hdue. tauto. }
    destruct (IH w1 HI1) as (w' & Hrun & Hidle & Hbetween & Hcfg);
      [rewrite Hnow1; apply Hdue, Hin0 | exact Hdue1 | lia |].
    exists w'. split; [cbn [List.repeat exec]; rewrite Hstep; exact Hrun|].
    split; [exact Hidle|]. split; [lia|]. rewrite Hcfg. exact Hcfg1.
Qed.

(** X9: from any point of any run, when the editor goes silent the pending
    timers fire one by one and none is armed again; when none is left at
    most 500ms have passed, the text is the same, and the leading and the
    trailing check have each been invoked once per edit of the run.  At
    most two timers per edit are ever pending. *)
Theorem silence_settles_within_500ms t0 h ls w :
  exec yamlParser_load schema_validate getModelMarkers ls (mount t0 h) = Some w ->
  (List.length (timers w) <= 2 * edits ls)%nat
  /\ exists w',
      exec yamlParser_load schema_validate getModelMarkers
        (List.repeat Tick (List.length (timers w))) w = Some w'
      /\ timers w' = []
      /\ now w <= now w' <= now w + 500
      /\ configRef w' = configRef w
      /\ invocations ChangeStart w' = edits ls
      /\ invocations ChangePause w' = edits ls.
Proof.
  intros Hrun.
  pose proof (run_inv _ _ _ _ _ _ (inv_mount t0 h) Hrun) as HI.
  destruct (run_counts _ _ _ _ _ _ (inv_mount t0 h) Hrun) as (_ & _ & _ & Hd).
  change (List.length (timers (mount t0 h))) with 0%nat in Hd.
  split; [lia|].
  destruct (settle_within (now w + 500) (List.length (timers w)) w HI)
    as (w' & Hsettle & Hidle & Hbetween & Hcfg); [lia | | reflexivity |].
  { apply (run_due_bound ls (mount t0 h) w (inv_mount t0 h)); [|exact Hrun].
    intros tm []. }
  exists w'. split; [exact Hsettle|]. split; [exact Hidle|].
  split; [exact Hbetween|]. split; [exact Hcfg|].
  assert (Hwhole : exec yamlParser_load schema_validate getModelMarkers
                     (ls ++ List.repeat Tick (List.length (timers w)))
                     (mount t0 h) = Some w').
  { rewrite exec_app, Hrun. exact Hsettle. }
  rewrite (leading_checks_of_a_run _ _ _ _ _ _ _ Hwhole),
    (trailing_checks_of_a_run _ _ _ _ _ _ _ Hwhole Hidle).
  rewrite edits_app, edits_of_ticks. split; lia.
Qed.

End EditsAndSilence.

(** X6 at a sample run: a typo and its correction, then publishing. *)
Lemma publish_sends_the_latest_text_witness :
  exists w,
    Sample.run Sample.clean Sample.second_edit_before_first_timer = Some w
    /\ configRef w = "route: {}"
    /\ dispatched w = []
    /\ (forall t, Some {| name := "prod" |} = Some t -> truthy (name t) = true ->
          exists request,
            handleSave w = Return tt (set_dispatched [request] w)
            /\ upd_tenantId request = name t
            /\ upd_config request = "route: {}").
Proof.
  eexists. split; [vm_compute; reflexivity|].
  match goal with
  | |- configRef ?reached = _ /\ _ =>
      apply (publish_sends_the_latest_text
               Sample.load Sample.validate Sample.clean
               0 Sample.the_hooks
               Sample.second_edit_before_first_timer reached)
  end.
  vm_compute. reflexivity.
Defined.

(** X9 at a sample run: ten edits in 50ms leave twenty timers. *)
Lemma silence_settles_within_500ms_witness :
  exists w,
    Sample.run Sample.clean Sample.burst = Some w
    /\ (List.length (timers w) <= 2 * edits Sample.burst)%nat
    /\ exists w',
        exec Sample.load Sample.validate Sample.clean
          (List.repeat Tick (List.length (timers w))) w = Some w'
        /\ timers w' = []
        /\ now w <= now w' <= now w + 500
        /\ configRef w' = configRef w
        /\ invocations ChangeStart w' = edits Sample.burst
        /\ invocations ChangePause w' = edits Sample.burst.
Proof.
  eexists. split; [vm_compute; reflexivity|].
  match goal with
  | |- (List.length (timers ?reached) <= _)%nat /\ _ =>
      apply (silence_settles_within_500ms
               Sample.load Sample.validate Sample.clean
               0 Sample.the_hooks Sample.burst reached)
  end.
  vm_compute. reflexivity.
Defined.
